(** * Price-feed cache: a shallow embedding of [priceCache.js] and of the
    single-pair route of the price server.

    Strings are byte strings ([string] of [ascii]); the alphabet of the
    program's inputs (chain names, token symbols, decimal amounts, the trade
    types [exactIn] / [exactOut]) is ASCII, and [toLowerCase] is modelled on
    that alphabet: it maps [A]..[Z] to [a]..[z] and leaves every other byte
    unchanged.  Times are integer milliseconds ([Z]).  Counters are natural
    numbers ([N]). *)

From Stdlib Require Import ZArith NArith Ascii String QArith Qcanon.
From stdpp Require Import base gmap sets list strings.

Local Open Scope string_scope.
Local Open Scope list_scope.
Local Open Scope Z_scope.

(** ** Strings *)

Module Str.

Definition isUpper (c : ascii) : bool :=
  ((65 <=? N_of_ascii c) && (N_of_ascii c <=? 90))%N.

(** [String.prototype.toLowerCase] on one ASCII code unit. *)
Definition lowerChar (c : ascii) : ascii :=
  if isUpper c then ascii_of_N (N_of_ascii c + 32) else c.

Fixpoint toLowerCase (s : string) : string :=
  match s with
  | EmptyString => EmptyString
  | String c r => String (lowerChar c) (toLowerCase r)
  end.

(** Two code units that are the same letter, possibly in different case. *)
Definition sameLetter (c d : ascii) : bool :=
  (N_of_ascii c =? N_of_ascii d)%N
  || (isUpper c && (N_of_ascii d =? N_of_ascii c + 32)%N)
  || (isUpper d && (N_of_ascii c =? N_of_ascii d + 32)%N).

(** Two strings that are equal up to letter case: same length, and the
    same letter at every position. *)
Fixpoint eqUpToCase (s t : string) : bool :=
  match s, t with
  | EmptyString, EmptyString => true
  | String c s', String d t' => sameLetter c d && eqUpToCase s' t'
  | _, _ => false
  end.

End Str.

(** ** Cache keys *)

(** [generateCacheKey]: the template literal is built first, then the whole
    string is lower-cased. *)
Definition generateCacheKey
    (chainName tokenInSymbol tokenOutSymbol amount tradeType : string) : string :=
  Str.toLowerCase
    ("price:" +:+ chainName +:+ ":" +:+ tokenInSymbol +:+ ":" +:+ tokenOutSymbol
       +:+ ":" +:+ amount +:+ ":" +:+ tradeType).

(** The pair key computed by [getTierForPair] and [addPairToTier]. *)
Definition pairKeyOf (chainName tokenInSymbol tokenOutSymbol : string) : string :=
  Str.toLowerCase (chainName +:+ ":" +:+ tokenInSymbol +:+ ":" +:+ tokenOutSymbol).

(** ** JavaScript values and objects *)

#[warnings="-register-all"] Inductive jsval :=
| JUndefined
| JNull
| JBool (b : bool)
| JNum (n : Z)
| JStr (s : string)
| JObj (fields : list (string * jsval))
| JArr (items : list jsval).

(** ToBoolean. *)
Definition truthy (v : jsval) : bool :=
  match v with
  | JUndefined | JNull => false
  | JBool b => b
  | JNum n => negb (n =? 0)%Z
  | JStr s => negb (String.eqb s "")
  | JObj _ | JArr _ => true
  end.

(** A quote is a plain object; [{...o, k: v}] is [<[k:=v]> o]. *)
Abbreviation obj := (gmap string jsval).

(** Property read [o.k]: [undefined] when the property is absent. *)
Definition getProp (o : obj) (k : string) : jsval := default JUndefined (o !! k).

Inductive error :=
| Error (msg : string)
| TypeError (msg : string).

Definition message (e : error) : string :=
  match e with Error m | TypeError m => m end.

(** JavaScript numbers as far as the metrics need them: the quotient of two
    integers is kept as the exact rational (the rounding to a double is not
    modelled), [0/0] is [NaN] and [x/0] is an infinity. *)
Inductive number :=
| NaN
| Infinity (negative : bool)
| Num (q : Qc).

Definition ofZ (z : Z) : Qc := Q2Qc (inject_Z z).

Definition jsDiv (a b : Z) : number :=
  if (b =? 0)%Z then
    (if (a =? 0)%Z then NaN else Infinity (a <? 0)%Z)
  else Num (ofZ a / ofZ b)%Qc.

(** [x || 0] on numbers: [NaN] and [0] are falsy. *)
Definition orZero (x : number) : number :=
  match x with
  | NaN => Num 0%Qc
  | Num q => if decide (q = 0%Qc) then Num 0%Qc else Num q
  | Infinity s => Infinity s
  end.

(** ** Configuration ([this.config]) *)

Record tierConfig := {
  ttl : Z;
  refresh : option Z;
  pairs : gset string
}.

Record circuitBreakerConfig := {
  failureThreshold : Z;
  timeout : Z;
  resetTimeout : Z
}.

(** [tiers] is an object literal; its entries are kept in source order,
    which is the order [Object.entries] enumerates them in. *)
Record config := {
  tiers : list (string * tierConfig);
  maxStaleAge : Z;
  circuitBreaker : circuitBreakerConfig
}.

Definition initialConfig : config := {|
  tiers :=
    [ ("TIER_1", {| ttl := 10000; refresh := Some 5000; pairs := ∅ |});
      ("TIER_2", {| ttl := 60000; refresh := Some 30000; pairs := ∅ |});
      ("TIER_3", {| ttl := 300000; refresh := Some 180000; pairs := ∅ |});
      ("TIER_4", {| ttl := 600000; refresh := None; pairs := ∅ |}) ];
  maxStaleAge := 3600000;
  circuitBreaker :=
    {| failureThreshold := 5; timeout := 30000; resetTimeout := 60000 |}
|}.

(** [tiers[name]] among the own properties of the object. *)
Fixpoint tierByName (name : string) (ts : list (string * tierConfig))
  : option tierConfig :=
  match ts with
  | [] => None
  | (n, c) :: rest => if String.eqb n name then Some c else tierByName name rest
  end.

(** In-place update of [tiers[name]]. *)
Fixpoint updateTier (name : string) (f : tierConfig → tierConfig)
    (ts : list (string * tierConfig)) : list (string * tierConfig) :=
  match ts with
  | [] => []
  | (n, c) :: rest =>
      if String.eqb n name then (n, f c) :: rest
      else (n, c) :: updateTier name f rest
  end.

Definition addPair (pairKey : string) (c : tierConfig) : tierConfig :=
  {| ttl := ttl c; refresh := refresh c; pairs := {[pairKey]} ∪ pairs c |}.

(** The labels of the tiers whose [pairs] set holds [pairKey]. *)
Definition tiersHolding (pairKey : string) (ts : list (string * tierConfig))
  : list string :=
  (filter (λ nc, pairKey ∈ pairs nc.2) ts).*1.

(** ** Metrics ([this.metrics]) *)

Record metrics := {
  cacheHits : N;
  cacheMisses : N;
  errors : N;
  responseTime : list Z;
  lastReset : Z
}.

(** ** Cache entries and the Redis client *)

(** The [tier] field is [None] when the property is absent; [Some ""] is the
    falsy empty string. *)
Record cacheEntry := {
  data : obj;
  timestamp : Z;
  tier : option string
}.

(** What the store keeps under a key: the entry (the JSON round trip of an
    entry is taken to be the identity) and the expiry in seconds it was
    written with. *)
Record redisValue := {
  value : cacheEntry;
  expireSeconds : Z
}.

Inductive redisCall :=
| RGet (key : string)
| RSetex (key : string) (seconds : Z) (entry : cacheEntry).

(** [rejects n] tells whether the [n]-th call on the client rejects. *)
Record redisClient := {
  store : gmap string redisValue;
  calls : list redisCall;
  rejects : nat → bool
}.

(** ** The job queue *)

Record pairParams := {
  chainName : string;
  tokenInSymbol : string;
  tokenOutSymbol : string;
  amount : string;
  tradeType : string
}.

Record jobData := {
  params : pairParams;
  jobTimestamp : Z
}.

Record backoffOptions := {
  backoffType : string;
  delay : Z
}.

Record jobOptions := {
  priority : Z;
  attempts : Z;
  backoff : backoffOptions
}.

Record job := {
  jobName : string;
  jobPayload : jobData;
  jobOpts : jobOptions
}.

(** The Bull queue: the jobs handed to [add], in call order, and what the
    four status queries answer. *)
Record bullQueue := {
  added : list job;
  getActive : list job;
  getWaiting : list job;
  getCompleted : list job;
  getFailed : list job
}.

(** ** The upstream router *)

(** The values [getPriceForPair] obtains from the chain and the router. *)
Record routeResult := {
  r_chainId : jsval;
  r_tokenIn : jsval;
  r_tokenOut : jsval;
  r_price : jsval;
  r_priceImpact : jsval;
  r_inputAmount : jsval;
  r_outputAmount : jsval;
  r_minimumReceived : jsval;
  r_maximumInput : jsval;
  r_route : jsval;
  r_estimatedGas : jsval;
  r_estimatedGasPrice : jsval
}.

(** The object literal [getPriceForPair] returns. *)
Definition formatResponse (p : pairParams) (r : routeResult) : obj :=
  list_to_map
    [ ("chainName", JStr (chainName p));
      ("chainId", r_chainId r);
      ("pair", JStr (tokenInSymbol p +:+ "/" +:+ tokenOutSymbol p));
      ("tokenIn", r_tokenIn r);
      ("tokenOut", r_tokenOut r);
      ("tradeType", JStr (tradeType p));
      ("price", r_price r);
      ("priceImpact", r_priceImpact r);
      ("inputAmount", r_inputAmount r);
      ("outputAmount", r_outputAmount r);
      ("minimumReceived", r_minimumReceived r);
      ("maximumInput", r_maximumInput r);
      ("route", r_route r);
      ("estimatedGas", r_estimatedGas r);
      ("estimatedGasPrice", r_estimatedGasPrice r) ].

(** ** The world a provider runs in *)

(** [clock n] is what the [n]-th read of [Date.now()] returns; [router n p]
    is how the [n]-th call of the router on [p] ends (every way
    [getPriceForPair] can throw is an [inl]). *)
Record world := {
  this_config : config;
  this_metrics : metrics;
  redis : redisClient;
  priceQueue : bullQueue;
  clock : nat → Z;
  clockReads : nat;
  router : nat → pairParams → error + routeResult;
  routerCalls : list pairParams
}.

Definition setConfig (c : config) (w : world) : world :=
  {| this_config := c; this_metrics := this_metrics w; redis := redis w;
     priceQueue := priceQueue w; clock := clock w; clockReads := clockReads w;
     router := router w; routerCalls := routerCalls w |}.

Definition setMetrics (m : metrics) (w : world) : world :=
  {| this_config := this_config w; this_metrics := m; redis := redis w;
     priceQueue := priceQueue w; clock := clock w; clockReads := clockReads w;
     router := router w; routerCalls := routerCalls w |}.

Definition setRedis (r : redisClient) (w : world) : world :=
  {| this_config := this_config w; this_metrics := this_metrics w; redis := r;
     priceQueue := priceQueue w; clock := clock w; clockReads := clockReads w;
     router := router w; routerCalls := routerCalls w |}.

Definition setQueue (q : bullQueue) (w : world) : world :=
  {| this_config := this_config w; this_metrics := this_metrics w;
     redis := redis w; priceQueue := q; clock := clock w;
     clockReads := clockReads w; router := router w;
     routerCalls := routerCalls w |}.

Definition setClockReads (n : nat) (w : world) : world :=
  {| this_config := this_config w; this_metrics := this_metrics w;
     redis := redis w; priceQueue := priceQueue w; clock := clock w;
     clockReads := n; router := router w; routerCalls := routerCalls w |}.

Definition setRouterCalls (l : list pairParams) (w : world) : world :=
  {| this_config := this_config w; this_metrics := this_metrics w;
     redis := redis w; priceQueue := priceQueue w; clock := clock w;
     clockReads := clockReads w; router := router w; routerCalls := l |}.

(** ** The monad of provider methods: state and exceptions *)

Inductive outcome (A : Type) :=
| Return (a : A)
| Throw (e : error).
Arguments Return {A} a.
Arguments Throw {A} e.

Definition M (A : Type) : Type := world → world * outcome A.

#[global] Instance M_ret : MRet M := λ A a w, (w, Return a).

#[global] Instance M_bind : MBind M := λ A B f m w,
  match m w with
  | (w', Return a) => f a w'
  | (w', Throw e) => (w', Throw e)
  end.

Definition throw {A} (e : error) : M A := λ w, (w, Throw e).

(** [try { body } catch (e) { handler e }] *)
Definition tryCatch {A} (body : M A) (handler : error → M A) : M A := λ w,
  match body w with
  | (w', Return a) => (w', Return a)
  | (w', Throw e) => handler e w'
  end.

Definition getWorld : M world := λ w, (w, Return w).
Definition modifyWorld (f : world → world) : M unit := λ w, (f w, Return ()).

(** ** External calls *)

(** [Date.now()] *)
Definition Date_now : M Z := λ w,
  (setClockReads (S (clockReads w)) w, Return (clock w (clockReads w))).

Definition logCall (c : redisCall) (r : redisClient) : redisClient :=
  {| store := store r; calls := calls r ++ [c]; rejects := rejects r |}.

(** [await this.redis.get(key)]: the stored value, [None] for [null], or a
    rejection. *)
Definition redis_get (key : string) : M (option cacheEntry) := λ w,
  let r := redis w in
  if rejects r (length (calls r))
  then (setRedis (logCall (RGet key) r) w, Throw (Error "redis: get rejected"))
  else (setRedis (logCall (RGet key) r) w, Return (value <$> store r !! key)).

(** [await this.redis.setex(key, seconds, value)] *)
Definition redis_setex (key : string) (seconds : Z) (entry : cacheEntry)
  : M unit := λ w,
  let r := redis w in
  if rejects r (length (calls r))
  then (setRedis (logCall (RSetex key seconds entry) r) w,
        Throw (Error "redis: setex rejected"))
  else
    (setRedis
       {| store := <[key := {| value := entry; expireSeconds := seconds |}]> (store r);
          calls := calls r ++ [RSetex key seconds entry];
          rejects := rejects r |} w,
     Return ()).

(** [this.priceQueue.add(name, data, options)] *)
Definition queue_add (name : string) (d : jobData) (o : jobOptions) : M unit :=
  modifyWorld (λ w,
    let q := priceQueue w in
    setQueue
      {| added := added q ++ [{| jobName := name; jobPayload := d; jobOpts := o |}];
         getActive := getActive q; getWaiting := getWaiting q;
         getCompleted := getCompleted q; getFailed := getFailed q |} w).

(** [getPriceForPair(params)] of [tokenUtils.js]: one call of the router.
    What happens inside the call (chain and token lookup, the RPC round
    trips, the clock read for the deadline) is the world's business; only
    the thrown error or the fields of the returned object come back. *)
Definition getPriceForPair (p : pairParams) : M obj := λ w,
  let w' := setRouterCalls (routerCalls w ++ [p]) w in
  match router w (length (routerCalls w)) p with
  | inl e => (w', Throw e)
  | inr r => (w', Return (formatResponse p r))
  end.

(** ** Methods of [PriceFeedProvider] *)

Definition undefinedRead (prop : string) : error :=
  TypeError ("Cannot read properties of undefined (reading '" +:+ prop +:+ "')").

(** [getFromCache]: a rejected read is logged and answered with [null]. *)
Definition getFromCache (key : string) : M (option cacheEntry) :=
  tryCatch (redis_get key) (λ _, mret None).

(** [setCache]: the entry is stamped with [Date.now()], the tier's [ttl] is
    read (a [TypeError] for an unknown label), and the entry is written with
    [Math.floor(ttl / 1000)] seconds; whatever is thrown is logged only. *)
Definition setCache (key : string) (d : obj) (tierName : string) : M unit :=
  tryCatch
    (now ← Date_now;
     let cacheEntry := {| data := d; timestamp := now; tier := Some tierName |} in
     w ← getWorld;
     match tierByName tierName (tiers (this_config w)) with
     | None => throw (undefinedRead "ttl")
     | Some c => redis_setex key (ttl c / 1000) cacheEntry
     end)
    (λ _, mret ()).

(** [cached.tier || 'TIER_4'] *)
Definition tierOrDefault (t : option string) : string :=
  match t with
  | Some s => if String.eqb s "" then "TIER_4" else s
  | None => "TIER_4"
  end.

(** [isExpired] *)
Definition isExpired (cached : cacheEntry) : M bool :=
  let tierName := tierOrDefault (tier cached) in
  w ← getWorld;
  match tierByName tierName (tiers (this_config w)) with
  | None => throw (undefinedRead "ttl")
  | Some c =>
      now ← Date_now;
      mret (ttl c <? now - timestamp cached)%Z
  end.

(** [canServeStale] *)
Definition canServeStale (cached : cacheEntry) : M bool :=
  now ← Date_now;
  w ← getWorld;
  mret (now - timestamp cached <? maxStaleAge (this_config w))%Z.

(** The loop of [getTierForPair] over [Object.entries(this.config.tiers)]. *)
Fixpoint firstTierHolding (pairKey : string) (ts : list (string * tierConfig))
  : option string :=
  match ts with
  | [] => None
  | (n, c) :: rest =>
      if bool_decide (pairKey ∈ pairs c) then Some n
      else firstTierHolding pairKey rest
  end.

(** [getTierForPair] *)
Definition getTierForPair (chainName tokenInSymbol tokenOutSymbol : string)
  : M string :=
  let pairKey := pairKeyOf chainName tokenInSymbol tokenOutSymbol in
  w ← getWorld;
  mret (default "TIER_4" (firstTierHolding pairKey (tiers (this_config w)))).

(** [fetchPrice] *)
Definition fetchPrice
    (chainName tokenInSymbol tokenOutSymbol amount tradeType : string) : M obj :=
  getPriceForPair
    {| chainName := chainName; tokenInSymbol := tokenInSymbol;
       tokenOutSymbol := tokenOutSymbol; amount := amount;
       tradeType := tradeType |}.

Definition priorityNumber (priority : string) : Z :=
  if String.eqb priority "high" then 1
  else if String.eqb priority "background" then -1
  else 0.

(** [queuePriceUpdate], up to and including its call of [priceQueue.add]. *)
Definition queuePriceUpdate
    (chainName tokenInSymbol tokenOutSymbol amount tradeType priority : string)
  : M unit :=
  now ← Date_now;
  let jobData :=
    {| params := {| chainName := chainName; tokenInSymbol := tokenInSymbol;
                    tokenOutSymbol := tokenOutSymbol; amount := amount;
                    tradeType := tradeType |};
       jobTimestamp := now |} in
  let options :=
    {| priority := priorityNumber priority;
       attempts := 3;
       backoff := {| backoffType := "exponential"; delay := 2000 |} |} in
  queue_add "fetch-price" jobData options.

Definition updMetrics (f : metrics → metrics) : M unit :=
  modifyWorld (λ w, setMetrics (f (this_metrics w)) w).

(** [this.metrics.cacheHits++] *)
Definition incCacheHits : M unit :=
  updMetrics (λ m,
    {| cacheHits := cacheHits m + 1; cacheMisses := cacheMisses m;
       errors := errors m; responseTime := responseTime m;
       lastReset := lastReset m |}).

(** [this.metrics.cacheMisses++] *)
Definition incCacheMisses : M unit :=
  updMetrics (λ m,
    {| cacheHits := cacheHits m; cacheMisses := cacheMisses m + 1;
       errors := errors m; responseTime := responseTime m;
       lastReset := lastReset m |}).

(** [this.metrics.errors++] *)
Definition incErrors : M unit :=
  updMetrics (λ m,
    {| cacheHits := cacheHits m; cacheMisses := cacheMisses m;
       errors := errors m + 1; responseTime := responseTime m;
       lastReset := lastReset m |}).

(** [recordResponseTime]: push, then shift once when more than 1000 are kept. *)
Definition recordResponseTime (time : Z) : M unit :=
  updMetrics (λ m,
    let pushed := (responseTime m ++ [time])%list in
    {| cacheHits := cacheHits m; cacheMisses := cacheMisses m;
       errors := errors m;
       responseTime := if (1000 <? length pushed)%nat then tail pushed else pushed;
       lastReset := lastReset m |}).

(** [getPrice].  [fetchNow] is the tail of the [try] block, reached when
    neither of the two [if]s returned. *)
Definition getPrice
    (chainName tokenInSymbol tokenOutSymbol amount tradeType : string) : M obj :=
  startTime ← Date_now;
  let cacheKey :=
    generateCacheKey chainName tokenInSymbol tokenOutSymbol amount tradeType in
  let fetchNow : M obj :=
    incCacheMisses;;
    price ← fetchPrice chainName tokenInSymbol tokenOutSymbol amount tradeType;
    tierName ← getTierForPair chainName tokenInSymbol tokenOutSymbol;
    setCache cacheKey price tierName;;
    now ← Date_now;
    recordResponseTime (now - startTime);;
    mret price in
  tryCatch
    (cached ← getFromCache cacheKey;
     match cached with
     | None => fetchNow
     | Some c =>
         expired ← isExpired c;
         if negb expired then
           incCacheHits;;
           now ← Date_now;
           recordResponseTime (now - startTime);;
           mret (data c)
         else
           servable ← canServeStale c;
           if (servable : bool) then
             queuePriceUpdate chainName tokenInSymbol tokenOutSymbol amount
               tradeType "background";;
             incCacheHits;;
             now ← Date_now;
             recordResponseTime (now - startTime);;
             mret (<["_stale" := JBool true]> (data c))
           else fetchNow
     end)
    (λ error,
       incErrors;;
       cached ← getFromCache cacheKey;
       match cached with
       | Some c =>
           mret (<["_veryStale" := JBool true]>
                   (<["_error" := JStr (message error)]> (data c)))
       | None => throw error
       end).

(** [addPairToTier] *)
Definition addPairToTier
    (chainName tokenInSymbol tokenOutSymbol tierName : string) : M unit :=
  let pairKey := pairKeyOf chainName tokenInSymbol tokenOutSymbol in
  w ← getWorld;
  match tierByName tierName (tiers (this_config w)) with
  | None => throw (undefinedRead "pairs")
  | Some _ =>
      modifyWorld (λ w,
        let c := this_config w in
        setConfig
          {| tiers := updateTier tierName (addPair pairKey) (tiers c);
             maxStaleAge := maxStaleAge c;
             circuitBreaker := circuitBreaker c |} w)
  end.

Record queueStats := {
  active : list job;
  waiting : list job;
  completed : list job;
  failed : list job
}.

Record metricsReport := {
  counters : metrics;
  uptime : Z;
  hitRate : number;
  avgResponseTime : number;
  stats : queueStats
}.

(** [responseTime.reduce((a, b) => a + b)] on a non-empty array. *)
Definition reduceAdd (first : Z) (rest : list Z) : Z := foldl Z.add first rest.

(** [getMetrics] *)
Definition getMetrics : M metricsReport :=
  now ← Date_now;
  w ← getWorld;
  let m := this_metrics w in
  let q := priceQueue w in
  mret
    {| counters := m;
       uptime := now - lastReset m;
       hitRate :=
         orZero (jsDiv (Z.of_N (cacheHits m))
                       (Z.of_N (cacheHits m) + Z.of_N (cacheMisses m)));
       avgResponseTime :=
         match responseTime m with
         | [] => Num 0%Qc
         | t :: ts => jsDiv (reduceAdd t ts) (Z.of_nat (length (t :: ts)))
         end;
       stats := {| active := getActive q; waiting := getWaiting q;
                   completed := getCompleted q; failed := getFailed q |} |}.

(** ** The single-pair route of the price server *)

Record metadata := {
  cached : bool;
  stale : bool;
  veryStale : bool;
  metaError : jsval;
  metaTimestamp : Z
}.

Inductive responseBody :=
| PriceBody (price : obj) (meta : metadata)
| ErrorBody (errorMessage : string) (errorTimestamp : Z).

Record response := {
  status : Z;
  cacheControl : option string;
  body : responseBody
}.

(** The handler of [GET /price/:chainName/:tokenIn/:tokenOut]; the two query
    parameters are [None] when absent, and [new Date()] reads the clock. *)
Definition priceRoute (chainName tokenIn tokenOut : string)
    (queryAmount queryTradeType : option string) : M response :=
  tryCatch
    (let amount := default "1000" queryAmount in
     let tradeType := default "exactIn" queryTradeType in
     price ← getPrice chainName tokenIn tokenOut amount tradeType;
     now ← Date_now;
     let meta :=
       {| cached := negb (truthy (getProp price "_stale"))
                    && negb (truthy (getProp price "_veryStale"));
          stale := truthy (getProp price "_stale");
          veryStale := truthy (getProp price "_veryStale");
          metaError := if truthy (getProp price "_error")
                       then getProp price "_error" else JNull;
          metaTimestamp := now |} in
     let header :=
       if truthy (getProp price "_stale") then "public, max-age=5"
       else if truthy (getProp price "_veryStale") then "public, max-age=1"
       else "public, max-age=30" in
     mret {| status := 200; cacheControl := Some header;
             body := PriceBody price meta |})
    (λ error,
       now ← Date_now;
       mret {| status := 500; cacheControl := None;
               body := ErrorBody (message error) now |}).

(** ** Derived notions used in the statements *)

(** The members of a tier ([this.config.tiers[t].pairs]); empty for a label
    that is not configured. *)
Definition members (tierName : string) (w : world) : gset string :=
  from_option pairs ∅ (tierByName tierName (tiers (this_config w))).

(** The label and [ttl] of every tier, in order. *)
Definition tierTtls (c : config) : list (string * Z) :=
  (λ nc, (nc.1, ttl nc.2)) <$> tiers c.

(** A configuration that differs from the constructor's only in the
    [pairs] sets, which is all [addPairToTier] ever changes. *)
Definition standardConfig (c : config) : Prop :=
  tierTtls c = tierTtls initialConfig ∧ maxStaleAge c = maxStaleAge initialConfig.

(** What one read of the store under [key] answers in [w], as
    [getFromCache] reports it: [None] when the read rejects or the key is
    absent. *)
Definition readResult (key : string) (r : redisClient) (n : nat)
  : option cacheEntry :=
  if rejects r n then None else value <$> store r !! key.

(** Which way [getPrice] goes after its first lookup of [key] in [w]: the
    entry is served as fresh, served stale, the router is called, or the
    freshness check throws (an entry with a label that is not configured). *)
Inductive branch :=
| ServeFresh (c : cacheEntry)
| ServeStale (c : cacheEntry)
| FetchNow
| CheckThrows.

Definition branchOf (key : string) (w : world) : branch :=
  match readResult key (redis w) (length (calls (redis w))) with
  | None => FetchNow
  | Some c =>
      match tierByName (tierOrDefault (tier c)) (tiers (this_config w)) with
      | None => CheckThrows
      | Some tc =>
          if ttl tc <? clock w (S (clockReads w)) - timestamp c then
            if clock w (S (S (clockReads w))) - timestamp c
               <? maxStaleAge (this_config w)
            then ServeStale c
            else FetchNow
          else ServeFresh c
      end
  end.

(** One tier-assignment request: chain, tokenIn, tokenOut, tier label. *)
Record assignment := {
  a_chainName : string;
  a_tokenIn : string;
  a_tokenOut : string;
  a_tier : string
}.

(** A sequence of [addPairToTier] calls, each on the state the previous one
    left; a call that throws leaves the state as it was. *)
Fixpoint assignAll (l : list assignment) (w : world) : world :=
  match l with
  | [] => w
  | a :: rest =>
      assignAll rest
        (addPairToTier (a_chainName a) (a_tokenIn a) (a_tokenOut a) (a_tier a) w).1
  end.

Definition getPriceOf (p : pairParams) : M obj :=
  getPrice (chainName p) (tokenInSymbol p) (tokenOutSymbol p) (amount p)
    (tradeType p).

(** Requests served one after the other, with each one's outcome. *)
Fixpoint serve (l : list pairParams) (w : world) : world * list (outcome obj) :=
  match l with
  | [] => (w, [])
  | p :: rest =>
      let '(w1, r) := getPriceOf p w in
      let '(w2, rs) := serve rest w1 in
      (w2, r :: rs)
  end.

(** ** Worlds used in the examples *)

Definition emptyMetrics : metrics :=
  {| cacheHits := 0; cacheMisses := 0; errors := 0; responseTime := [];
     lastReset := 0 |}.

Definition emptyQueue : bullQueue :=
  {| added := []; getActive := []; getWaiting := []; getCompleted := [];
     getFailed := [] |}.

(** A freshly constructed provider in front of a store holding [st], with
    the clock [clk] and the router [rt]. *)
Definition freshWorld (st : gmap string redisValue) (clk : nat → Z)
    (rt : nat → pairParams → error + routeResult) : world :=
  {| this_config := initialConfig;
     this_metrics := emptyMetrics;
     redis := {| store := st; calls := []; rejects := λ _, false |};
     priceQueue := emptyQueue;
     clock := clk;
     clockReads := 0;
     router := rt;
     routerCalls := [] |}.

(** A clock that advances by one second per read. *)
Definition tickingClock : nat → Z := λ n, 1000 * Z.of_nat n.

Definition failingRouter : nat → pairParams → error + routeResult :=
  λ _ p, inl (Error ("No route found for " +:+ tokenInSymbol p +:+ " -> "
                       +:+ tokenOutSymbol p +:+ " on " +:+ chainName p)).

Definition sampleRoute : routeResult :=
  {| r_chainId := JNum 1;
     r_tokenIn := JObj [("symbol", JStr "USDC"); ("decimals", JNum 6)];
     r_tokenOut := JObj [("symbol", JStr "WETH"); ("decimals", JNum 18)];
     r_price := JStr "0.000301";
     r_priceImpact := JStr "0.01";
     r_inputAmount := JStr "1000";
     r_outputAmount := JStr "0.301";
     r_minimumReceived := JStr "0.2995";
     r_maximumInput := JStr "1000";
     r_route := JArr [];
     r_estimatedGas := JStr "120000";
     r_estimatedGasPrice := JStr "1000000000" |}.

Definition workingRouter : nat → pairParams → error + routeResult :=
  λ _ _, inr sampleRoute.

Definition ethUsdcWeth (amt : string) : pairParams :=
  {| chainName := "Ethereum"; tokenInSymbol := "USDC"; tokenOutSymbol := "WETH";
     amount := amt; tradeType := "exactIn" |}.

Definition sampleEntry (ts : Z) (t : option string) : cacheEntry :=
  {| data := {["price" := JStr "0.0003"]}; timestamp := ts; tier := t |}.


(** * The rest of the provider, the admin route, and the token tables *)

From Equations Require Import Equations.

(** ** More operations on strings *)

Definition isLower (c : ascii) : bool :=
  ((97 <=? N_of_ascii c) && (N_of_ascii c <=? 122))%N.

(** [String.prototype.toUpperCase] on one ASCII code unit. *)
Definition upperChar (c : ascii) : ascii :=
  if isLower c then ascii_of_N (N_of_ascii c - 32) else c.

Fixpoint toUpperCase (s : string) : string :=
  match s with
  | EmptyString => EmptyString
  | String c r => String (upperChar c) (toUpperCase r)
  end.

(** [s.split(sep)] for a one-character separator: never empty, one more
    part than there are separators. *)
Fixpoint split (sep : ascii) (s : string) : list string :=
  match s with
  | EmptyString => [EmptyString]
  | String c r =>
      if Ascii.eqb c sep then EmptyString :: split sep r
      else match split sep r with
           | h :: t => String c h :: t
           | [] => [String c EmptyString]
           end
  end.

(** No code unit of [s] is [sep]. *)
Fixpoint freeOf (sep : ascii) (s : string) : bool :=
  match s with
  | EmptyString => true
  | String c r => negb (Ascii.eqb c sep) && freeOf sep r
  end.

(** What a value that may be [undefined] renders to inside a template
    literal. *)
Definition rendered (x : option string) : string := default "undefined" x.

(** ** The remaining methods of [PriceFeedProvider] *)

(** [for (const x of l) { await f(x) }]: the first throw ends the loop. *)
Fixpoint forEachM {A} (l : list A) (f : A → M unit) : M unit :=
  match l with
  | [] => mret ()
  | x :: rest => f x;; forEachM rest f
  end.

(** [refreshTier].  [Array.from(pairs)] lists the set; the order of a
    JavaScript [Set] (insertion order) is not kept by [gset], so the order
    of the jobs is that of [elements].  The array destructuring takes the
    first three parts of the key; a part that is missing is [undefined] in
    the source and is carried here as the string it renders to. *)
Definition refreshTier (tierName : string) : M unit :=
  w ← getWorld;
  match tierByName tierName (tiers (this_config w)) with
  | None => throw (undefinedRead "pairs")
  | Some c =>
      forEachM (elements (pairs c)) (λ pairKey,
        let parts := split ":" pairKey in
        queuePriceUpdate (rendered (parts !! 0%nat)) (rendered (parts !! 1%nat))
          (rendered (parts !! 2%nat)) "1000" "exactIn" "background")
  end.

Record popularPair := {
  pp_chainName : string;
  pp_tokenInSymbol : string;
  pp_tokenOutSymbol : string;
  pp_tier : string
}.

Definition popularPairs : list popularPair :=
  [ {| pp_chainName := "Ethereum"; pp_tokenInSymbol := "USDC";
       pp_tokenOutSymbol := "WETH"; pp_tier := "TIER_1" |};
    {| pp_chainName := "Ethereum"; pp_tokenInSymbol := "WETH";
       pp_tokenOutSymbol := "USDC"; pp_tier := "TIER_1" |};
    {| pp_chainName := "Ethereum"; pp_tokenInSymbol := "WBTC";
       pp_tokenOutSymbol := "WETH"; pp_tier := "TIER_1" |};
    {| pp_chainName := "Polygon"; pp_tokenInSymbol := "USDC";
       pp_tokenOutSymbol := "WMATIC"; pp_tier := "TIER_2" |};
    {| pp_chainName := "Arbitrum One"; pp_tokenInSymbol := "USDC";
       pp_tokenOutSymbol := "WETH"; pp_tier := "TIER_2" |} ].

(** [warmUp] *)
Definition warmUp : M unit :=
  forEachM popularPairs (λ pair,
    addPairToTier (pp_chainName pair) (pp_tokenInSymbol pair)
      (pp_tokenOutSymbol pair) (pp_tier pair);;
    queuePriceUpdate (pp_chainName pair) (pp_tokenInSymbol pair)
      (pp_tokenOutSymbol pair) "1000" "exactIn" "high").

Record workerResult := {
  success : bool;
  resultCacheKey : string;
  resultTier : string
}.

(** The processor registered by [initializeWorkers] for [fetch-price] jobs;
    the [catch] logs and throws the error again. *)
Definition processFetchPrice (d : jobData) : M workerResult :=
  let q := params d in
  tryCatch
    (price ← fetchPrice (chainName q) (tokenInSymbol q) (tokenOutSymbol q)
               (amount q) (tradeType q);
     let cacheKey :=
       generateCacheKey (chainName q) (tokenInSymbol q) (tokenOutSymbol q)
         (amount q) (tradeType q) in
     tierName ← getTierForPair (chainName q) (tokenInSymbol q) (tokenOutSymbol q);
     setCache cacheKey price tierName;;
     mret {| success := true; resultCacheKey := cacheKey; resultTier := tierName |})
    (λ error, throw error).

(** The labels the tier route accepts. *)
Definition tierLabels : list string := ["TIER_1"; "TIER_2"; "TIER_3"; "TIER_4"].

(** Of two labels, the one that comes first in [labels] ([a] when neither
    occurs). *)
Fixpoint firstOf (a b : string) (labels : list string) : string :=
  match labels with
  | [] => a
  | x :: rest =>
      if String.eqb x a then a
      else if String.eqb x b then b
      else firstOf a b rest
  end.

(** ** The tier route of the price server *)

Inductive adminBody :=
| AdminDone (text : string) (at_ : Z)
| AdminRefused (reason : string) (at_ : option Z).

Record adminResponse := {
  adminStatus : Z;
  adminPayload : adminBody
}.

(** The handler of [POST /admin/tiers/:tier/pairs]; a body field that is
    absent is [None]. *)
Definition tierRoute (tierName : string)
    (chainName tokenIn tokenOut : option string) : M adminResponse :=
  tryCatch
    (if negb (bool_decide (tierName ∈ tierLabels)) then
       mret {| adminStatus := 400;
               adminPayload :=
                 AdminRefused
                   "Invalid tier. Must be TIER_1, TIER_2, TIER_3, or TIER_4" None |}
     else
       addPairToTier (rendered chainName) (rendered tokenIn) (rendered tokenOut)
         tierName;;
       now ← Date_now;
       mret {| adminStatus := 200;
               adminPayload :=
                 AdminDone ("Added " +:+ rendered chainName +:+ ":"
                              +:+ rendered tokenIn +:+ ":" +:+ rendered tokenOut
                              +:+ " to " +:+ tierName) now |})
    (λ error,
       now ← Date_now;
       mret {| adminStatus := 500;
               adminPayload := AdminRefused (message error) (Some now) |}).

(** ** Token tables ([tokenUtils.js]) *)

(** [TOKEN_ADDRESSES], in the order [Object.entries] lists an object with
    integer keys (ascending). *)
Definition TOKEN_ADDRESSES : list (N * list (string * string)) :=
  [ (1%N,
      [ ("WETH", "0xC02aaA39b223FE8D0A0e5C4F27eAD9083C756Cc2");
        ("USDC", "0xA0b86991c6218b36c1d19D4a2e9Eb0cE3606eB48");
        ("USDT", "0xdAC17F958D2ee523a2206206994597C13D831ec7");
        ("DAI", "0x6B175474E89094C44Da98b954EedeAC495271d0F");
        ("WBTC", "0x2260FAC5E5542a773Aa44fBCfeDf7C193bc2C599");
        ("UNI", "0x1f9840a85d5aF5bf1D1762F925BDADdC4201F984");
        ("LINK", "0x514910771AF9Ca656af840dff83E8264EcF986CA");
        ("AAVE", "0x7Fc66500c84A76Ad7e9c93437bFc5Ac33E2DDaE9");
        ("MATIC", "0x7D1AfA7B718fb893dB30A3aBc0Cfc608AaCfeBB0");
        ("CRV", "0xD533a949740bb3306d119CC777fa900bA034cd52") ]);
    (10%N,
      [ ("WETH", "0x4200000000000000000000000000000000000006");
        ("USDC", "0x7F5c764cBc14f9669B88837ca1490cCa17c31607");
        ("USDT", "0x94b008aA00579c1307B0EF2c499aD98a8ce58e58");
        ("DAI", "0xDA10009cBd5D07dd0CeCc66161FC93D7c9000da1");
        ("WBTC", "0x68f180fcCe6836688e9084f035309E29Bf0A2095");
        ("OP", "0x4200000000000000000000000000000000000042");
        ("LINK", "0x350a791Bfc2C21F9Ed5d10980Dad2e2638ffa7f6");
        ("SNX", "0x8700dAec35aF8Ff88c16BdF0418774CB3D7599B4") ]);
    (56%N,
      [ ("WBNB", "0xbb4CdB9CBd36B01bD1cBaEBF2De08d9173bc095c");
        ("USDC", "0x8AC76a51cc950d9822D68b83fE1Ad97B32Cd580d");
        ("USDT", "0x55d398326f99059fF775485246999027B3197955");
        ("BUSD", "0xe9e7CEA3DedcA5984780Bafc599bD69ADd087D56");
        ("ETH", "0x2170Ed0880ac9A755fd29B2688956BD959F933F8");
        ("BTCB", "0x7130d2A12B9BCbFAe4f2634d864A1Ee1Ce3Ead9c");
        ("CAKE", "0x0E09FaBB73Bd3Ade0a17ECC321fD13a19e81cE82") ]);
    (137%N,
      [ ("WMATIC", "0x0d500B1d8E8eF31E21C99d1Db9A6444d3ADf1270");
        ("WETH", "0x7ceB23fD6bC0adD59E62ac25578270cFf1b9f619");
        ("USDC", "0x2791Bca1f2de4661ED88A30C99A7a9449Aa84174");
        ("USDT", "0xc2132D05D31c914a87C6611C10748AEb04B58e8F");
        ("DAI", "0x8f3Cf7ad23Cd3CaDbD9735AFf958023239c6A063");
        ("WBTC", "0x1bfd67037b42cf73acF2047067bd4F2C47D9BfD6");
        ("LINK", "0x53E0bca35eC356BD5ddDFebbD1Fc0fD03FaBad39");
        ("AAVE", "0xD6DF932A45C0f255f85145f286eA0b292B21C90B") ]);
    (8453%N,
      [ ("WETH", "0x4200000000000000000000000000000000000006");
        ("USDC", "0x833589fCD6eDb6E08f4c7C32D4f71b54bdA02913");
        ("DAI", "0x50c5725949A6F0c72E6C4a641F24049A917DB0Cb");
        ("USDbC", "0xd9aAEc86B65D86f6A7B5B1b0c42FFA531710b6CA") ]);
    (42161%N,
      [ ("WETH", "0x82aF49447D8a07e3bd95BD0d56f35241523fBab1");
        ("USDC", "0xFF970A61A04b1cA14834A43f5dE4533eBDDB5CC8");
        ("USDT", "0xFd086bC7CD5C481DCC9C85ebE478A1C0b69FCbb9");
        ("DAI", "0xDA10009cBd5D07dd0CeCc66161FC93D7c9000da1");
        ("WBTC", "0x2f2a2543B76A4166549F7aaB2e75Bef0aefC5B0f");
        ("ARB", "0x912CE59144191C1204E64559FE8253a0e49E6548");
        ("LINK", "0xf97f4df75117a78c1A5a0DBb814Af92458539FB4");
        ("GMX", "0xfc5A1A6EB076a2C7aD06eD22C90d7E710E35ad0a") ]);
    (43114%N,
      [ ("WAVAX", "0xB31f66AA3C1e785363F0875A1B74E27b85FD66c7");
        ("WETH", "0x49D5c2BdFfac6CE2BFdB6640F4F80f226bc10bAB");
        ("USDC", "0xA7D7079b0FEaD91F3e65f86E8915Cb59c1a4C664");
        ("USDT", "0xc7198437980c041c805A1EDcbA50c1Ce5db95118");
        ("DAI", "0xd586E7F844cEa2F87f50152665BCbc2C279D8d70");
        ("WBTC", "0x50b7545627a5162F82A992c33b87aDc75187B218");
        ("LINK", "0x5947BB275c521040051D82396192181b413227A3") ]) ].

(** One entry of [CHAIN_CONFIGS] (the file [chainConfigs.js] is not part of
    the sources; the table is a parameter of the functions that read it,
    listed in [Object.entries] order under its integer keys). *)
Record chainConfig := {
  name : string;
  rpcUrl : string
}.

(** [obj[key]] on a table kept as a list of entries. *)
Fixpoint entryOf {K V} (eqb : K → K → bool) (key : K) (l : list (K * V))
  : option V :=
  match l with
  | [] => None
  | (k, v) :: rest => if eqb k key then Some v else entryOf eqb key rest
  end.

Record chainTokens := {
  ct_chainId : N;
  ct_chainName : string;
  ct_tokens : list (string * string)
}.

(** [names.join(', ')] *)
Fixpoint join (sep : string) (l : list string) : string :=
  match l with
  | [] => ""
  | [x] => x
  | x :: rest => x +:+ sep +:+ join sep rest
  end.

Definition dquote : string := String "034" EmptyString.

(** The loop of [findTokensByChainName]: the first configuration whose
    name equals [chainName] up to case. *)
Fixpoint matchingChain (chainName : string) (cfgs : list (N * chainConfig))
  : option N :=
  match cfgs with
  | [] => None
  | (id, cfg) :: rest =>
      if String.eqb (Str.toLowerCase (name cfg)) (Str.toLowerCase chainName)
      then Some id
      else matchingChain chainName rest
  end.

(** [findTokensByChainName]: [!chainId] also rejects the id [0]; the name
    returned is that of the entry stored under the id. *)
Definition findTokensByChainName (CHAIN_CONFIGS : list (N * chainConfig))
    (chainName : string) : outcome chainTokens :=
  match matchingChain chainName CHAIN_CONFIGS with
  | Some id =>
      if (id =? 0)%N then
        Throw (Error ("Chain " +:+ dquote +:+ chainName +:+ dquote
                        +:+ " not found. Available chains: "
                        +:+ join ", " ((λ ic, name ic.2) <$> CHAIN_CONFIGS)))
      else
        match entryOf N.eqb id CHAIN_CONFIGS with
        | Some cfg =>
            Return {| ct_chainId := id; ct_chainName := name cfg;
                      ct_tokens := default [] (entryOf N.eqb id TOKEN_ADDRESSES) |}
        | None => Throw (undefinedRead "name")
        end
  | None =>
      Throw (Error ("Chain " +:+ dquote +:+ chainName +:+ dquote
                      +:+ " not found. Available chains: "
                      +:+ join ", " ((λ ic, name ic.2) <$> CHAIN_CONFIGS)))
  end.

(** [getTokenAddress]: [tokens[symbol.toUpperCase()] || null]. *)
Definition getTokenAddress (CHAIN_CONFIGS : list (N * chainConfig))
    (chainName symbol : string) : outcome (option string) :=
  match findTokensByChainName CHAIN_CONFIGS chainName with
  | Throw e => Throw e
  | Return ct =>
      Return (match entryOf String.eqb (toUpperCase symbol) (ct_tokens ct) with
              | Some address => if String.eqb address "" then None else Some address
              | None => None
              end)
  end.

(** A chain table used in the examples. *)
Definition sampleChains : list (N * chainConfig) :=
  [ (1%N, {| name := "Ethereum"; rpcUrl := "https://mainnet.example" |});
    (8453%N, {| name := "Base"; rpcUrl := "https://base.example" |}) ].

(** ** Block search of the pool scripts *)

(** What the JSON-RPC provider answers: the number of the latest block and
    the timestamp of each block. *)
Record provider := {
  latestNumber : Z;
  blockTimestamp : Z → Z
}.

(** The first loop of [findBlockByTimestamp]: step back 5000 blocks at a
    time until the block is older than the target, or block 0 is reached. *)
Equations? moveBack (p : provider) (targetTimestamp earliest : Z) : Z
  by wf (Z.to_nat earliest) lt :=
moveBack p targetTimestamp earliest
    with Z_lt_dec (blockTimestamp p earliest) targetTimestamp := {
  | left _ => earliest
  | right _ with Z.eq_dec (Z.max 0 (earliest - 5000)) 0 := {
      | left _ => Z.max 0 (earliest - 5000)
      | right _ => moveBack p targetTimestamp (Z.max 0 (earliest - 5000)) } }.
Proof. lia. Qed.

(** The second loop: binary search between [earliest] and [latest]. *)
Equations? bisect (p : provider) (targetTimestamp earliest latest : Z) : Z
  by wf (Z.to_nat (latest - earliest)) lt :=
bisect p targetTimestamp earliest latest with Z_lt_dec earliest latest := {
  | left _ =>
      if blockTimestamp p ((earliest + latest) / 2) <? targetTimestamp
      then bisect p targetTimestamp ((earliest + latest) / 2 + 1) latest
      else bisect p targetTimestamp earliest ((earliest + latest) / 2)
  | right _ => earliest }.
Proof.
  - assert (earliest <= (earliest + latest) / 2)
      by (apply Z.div_le_lower_bound; lia).
    assert ((earliest + latest) / 2 < latest)
      by (apply Z.div_lt_upper_bound; lia).
    lia.
  - assert (earliest <= (earliest + latest) / 2)
      by (apply Z.div_le_lower_bound; lia).
    assert ((earliest + latest) / 2 < latest)
      by (apply Z.div_lt_upper_bound; lia).
    lia.
Qed.

(** [findBlockByTimestamp] *)
Definition findBlockByTimestamp (p : provider) (targetTimestamp : Z) : Z :=
  let latest := latestNumber p in
  let earliest := latest - 5000 in
  let earliest := if earliest <? 0 then 0 else earliest in
  let earliest := moveBack p targetTimestamp earliest in
  bisect p targetTimestamp earliest latest.

(** ** Lemmas on strings *)

Lemma toLowerCase_app (s t : string) :
  Str.toLowerCase (s +:+ t) = Str.toLowerCase s +:+ Str.toLowerCase t.
Proof.
  induction s as [|c s IH]; simpl; [reflexivity|].
  by rewrite IH.
Qed.

Lemma N_of_ascii_lt (c : ascii) : (N_of_ascii c < 256)%N.
Proof. apply N_ascii_bounded. Qed.

Lemma lowerChar_sameLetter (c d : ascii) :
  Str.sameLetter c d = true → Str.lowerChar c = Str.lowerChar d.
Proof.
  unfold Str.sameLetter, Str.lowerChar, Str.isUpper.
  pose proof (N_of_ascii_lt c) as Hc. pose proof (N_of_ascii_lt d) as Hd.
  intros H.
  apply orb_true_iff in H as [H|H]; [apply orb_true_iff in H as [H|H]|].
  - apply N.eqb_eq in H.
    assert (c = d) as ->; [|reflexivity].
    rewrite <- (ascii_N_embedding c), <- (ascii_N_embedding d). by rewrite H.
  - apply andb_true_iff in H as [Hu H]. apply N.eqb_eq in H.
    rewrite Hu, H.
    apply andb_true_iff in Hu as [H1 H2].
    apply N.leb_le in H1, H2.
    replace ((65 <=? N_of_ascii c + 32)%N && (N_of_ascii c + 32 <=? 90)%N)
      with false.
    + rewrite <- H. by rewrite ascii_N_embedding.
    + symmetry. apply andb_false_iff. right. apply N.leb_gt. lia.
  - apply andb_true_iff in H as [Hu H]. apply N.eqb_eq in H.
    rewrite Hu, H.
    apply andb_true_iff in Hu as [H1 H2].
    apply N.leb_le in H1, H2.
    replace ((65 <=? N_of_ascii d + 32)%N && (N_of_ascii d + 32 <=? 90)%N)
      with false.
    + rewrite <- H. by rewrite ascii_N_embedding.
    + symmetry. apply andb_false_iff. right. apply N.leb_gt. lia.
Qed.

Lemma toLowerCase_eqUpToCase (s t : string) :
  Str.eqUpToCase s t = true → Str.toLowerCase s = Str.toLowerCase t.
Proof.
  revert t. induction s as [|c s IH]; intros [|d t]; simpl; try done.
  intros [Hc Hs]%andb_true_iff.
  by rewrite (lowerChar_sameLetter c d Hc), (IH t Hs).
Qed.

(** ** Cache-key theorems *)

(** Lower-casing the template literal is the same as filling the template
    with the lower-cased parameters. *)
Lemma generateCacheKey_lowercased_join
    (chainName tokenInSymbol tokenOutSymbol amount tradeType : string) :
  generateCacheKey chainName tokenInSymbol tokenOutSymbol amount tradeType
  = "price:" +:+ Str.toLowerCase chainName
      +:+ ":" +:+ Str.toLowerCase tokenInSymbol
      +:+ ":" +:+ Str.toLowerCase tokenOutSymbol
      +:+ ":" +:+ Str.toLowerCase amount
      +:+ ":" +:+ Str.toLowerCase tradeType.
Proof.
  unfold generateCacheKey.
  by rewrite !toLowerCase_app.
Qed.

(** C6: two parameter tuples that are equal up to letter case have the same
    cache key, and that key is the namespace [price:] followed by the
    colon-join of the five lower-cased parameters in the order chain,
    tokenIn, tokenOut, amount, direction. *)
Theorem generateCacheKey_case_insensitive
    (c1 i1 o1 a1 t1 c2 i2 o2 a2 t2 : string) :
  Str.eqUpToCase c1 c2 = true →
  Str.eqUpToCase i1 i2 = true →
  Str.eqUpToCase o1 o2 = true →
  Str.eqUpToCase a1 a2 = true →
  Str.eqUpToCase t1 t2 = true →
  generateCacheKey c1 i1 o1 a1 t1 = generateCacheKey c2 i2 o2 a2 t2
  ∧ generateCacheKey c1 i1 o1 a1 t1
    = "price:" +:+ Str.toLowerCase c1 +:+ ":" +:+ Str.toLowerCase i1
        +:+ ":" +:+ Str.toLowerCase o1 +:+ ":" +:+ Str.toLowerCase a1
        +:+ ":" +:+ Str.toLowerCase t1.
Proof.
  intros Hc Hi Ho Ha Ht.
  rewrite !generateCacheKey_lowercased_join.
  rewrite (toLowerCase_eqUpToCase _ _ Hc), (toLowerCase_eqUpToCase _ _ Hi),
    (toLowerCase_eqUpToCase _ _ Ho), (toLowerCase_eqUpToCase _ _ Ha),
    (toLowerCase_eqUpToCase _ _ Ht).
  done.
Qed.

Lemma generateCacheKey_case_insensitive_witness :
  generateCacheKey "Ethereum" "USDC" "WETH" "1000" "exactIn"
  = generateCacheKey "ETHEREUM" "usdc" "Weth" "1000" "EXACTIN"
  ∧ generateCacheKey "Ethereum" "USDC" "WETH" "1000" "exactIn"
    = "price:ethereum:usdc:weth:1000:exactin".
Proof.
  apply (generateCacheKey_case_insensitive
           "Ethereum" "USDC" "WETH" "1000" "exactIn"
           "ETHEREUM" "usdc" "Weth" "1000" "EXACTIN"); reflexivity.
Defined.

(** ** Running the monad *)

Ltac run_monad :=
  unfold mbind, M_bind, mret, M_ret, getWorld, modifyWorld, throw, tryCatch,
    updMetrics in *.

(** ** Tier registry *)

Lemma tierByName_updateTier (t t' : string) (f : tierConfig → tierConfig)
    (ts : list (string * tierConfig)) :
  tierByName t' (updateTier t f ts)
  = if decide (t = t') then f <$> tierByName t ts else tierByName t' ts.
Proof.
  induction ts as [|[n c] ts IH]; simpl.
  - by case_decide.
  - destruct (String.eqb n t) eqn:Hn; simpl.
    + apply String.eqb_eq in Hn as ->.
      case_decide as Htt.
      * subst t'. by rewrite String.eqb_refl.
      * destruct (String.eqb t t') eqn:Ht; [|done].
        by apply String.eqb_eq in Ht.
    + rewrite IH. case_decide as Htt.
      * subst t'. by rewrite Hn.
      * done.
Qed.

Lemma tierTtls_updateTier (t k : string) (ts : list (string * tierConfig)) :
  ((λ nc, (nc.1, ttl nc.2)) <$> updateTier t (addPair k) ts)
  = ((λ nc : string * tierConfig, (nc.1, ttl nc.2)) <$> ts).
Proof.
  induction ts as [|[n c] ts IH]; [done|].
  cbn [updateTier]. destruct (String.eqb n t).
  - by rewrite !fmap_cons.
  - by rewrite !fmap_cons, IH.
Qed.

(** One call of [addPairToTier] with a configured label: it returns, the
    pair key joins the named tier, and nothing else changes. *)
Lemma addPairToTier_step (c i o t : string) (w : world) (tc : tierConfig) :
  tierByName t (tiers (this_config w)) = Some tc →
  (addPairToTier c i o t w).2 = Return ()
  ∧ members t (addPairToTier c i o t w).1 = {[pairKeyOf c i o]} ∪ members t w
  ∧ ∀ t', t' ≠ t → members t' (addPairToTier c i o t w).1 = members t' w.
Proof.
  intros Ht. unfold addPairToTier, members. run_monad. cbn. rewrite Ht. cbn.
  split; [done|]. split.
  - rewrite tierByName_updateTier. case_decide; [|done]. by rewrite Ht.
  - intros t' Hne. rewrite tierByName_updateTier. case_decide; [|done].
    by subst.
Qed.

(** A call with a label that is not configured throws and changes nothing. *)
Lemma addPairToTier_unknown (c i o t : string) (w : world) :
  tierByName t (tiers (this_config w)) = None →
  addPairToTier c i o t w = (w, Throw (undefinedRead "pairs")).
Proof. intros Ht. unfold addPairToTier. run_monad. by rewrite Ht. Qed.

(** [addPairToTier] never removes a member from any tier. *)
Lemma addPairToTier_keeps (c i o t t' k : string) (w : world) :
  k ∈ members t' w → k ∈ members t' (addPairToTier c i o t w).1.
Proof.
  intros Hk.
  destruct (tierByName t (tiers (this_config w))) as [tc|] eqn:Ht.
  - destruct (addPairToTier_step c i o t w tc Ht) as (Hret & Hin & Hout).
    destruct (decide (t' = t)) as [->|Hne].
    + rewrite Hin. apply elem_of_union. by right.
    + by rewrite (Hout t' Hne).
  - by rewrite (addPairToTier_unknown c i o t w Ht).
Qed.

(** [addPairToTier] keeps the labels and [ttl]s of the tiers. *)
Lemma addPairToTier_standard (c i o t : string) (w : world) :
  standardConfig (this_config w) →
  standardConfig (this_config (addPairToTier c i o t w).1).
Proof.
  intros [Httl Hmax]. unfold addPairToTier. run_monad. cbn.
  destruct (tierByName t (tiers (this_config w))); cbn; [|done].
  split; [|done]. unfold tierTtls in *. cbn. by rewrite tierTtls_updateTier.
Qed.

Lemma assignAll_keeps (l : list assignment) (t k : string) (w : world) :
  k ∈ members t w → k ∈ members t (assignAll l w).
Proof.
  revert w. induction l as [|a l IH]; intros w Hk; simpl; [done|].
  apply IH. by apply addPairToTier_keeps.
Qed.

Lemma assignAll_labels (l : list assignment) (t : string) (w : world) :
  is_Some (tierByName t (tiers (this_config (assignAll l w))))
  ↔ is_Some (tierByName t (tiers (this_config w))).
Proof.
  revert w. induction l as [|a l IH]; intros w; simpl; [done|].
  rewrite IH. unfold addPairToTier. run_monad. cbn.
  destruct (tierByName (a_tier a) (tiers (this_config w))) eqn:Ha; cbn; [|done].
  rewrite tierByName_updateTier. case_decide; [|done].
  subst. rewrite Ha. cbn. split; eauto.
Qed.

(** C2 (as the code has it): after any sequence of [addPairToTier] calls,
    every pair key is a member of each configured tier it was assigned to by
    a call of the sequence, and every membership that held before the
    sequence still holds: an assignment adds the pair to the named tier and
    removes it from no tier. *)
Theorem assignAll_accumulates (l : list assignment) (w : world) :
  (∀ a, a ∈ l →
        is_Some (tierByName (a_tier a) (tiers (this_config w))) →
        pairKeyOf (a_chainName a) (a_tokenIn a) (a_tokenOut a)
          ∈ members (a_tier a) (assignAll l w))
  ∧ (∀ t k, k ∈ members t w → k ∈ members t (assignAll l w)).
Proof.
  split; [|intros t k; apply assignAll_keeps].
  revert w. induction l as [|b l IH]; intros w a Ha Hsome.
  - by apply elem_of_nil in Ha.
  - simpl. apply elem_of_cons in Ha as [->|Ha].
    + apply assignAll_keeps. destruct Hsome as [tc Htc].
      destruct (addPairToTier_step (a_chainName b) (a_tokenIn b) (a_tokenOut b)
                  (a_tier b) w tc Htc) as (Hret & Hin & Hout).
      rewrite Hin. apply elem_of_union. left. by apply elem_of_singleton.
    + apply IH; [done|].
      apply (assignAll_labels [b] (a_tier a) w). exact Hsome.
Qed.

(** C2, counterexample: a pair assigned to [TIER_1] and then to [TIER_2] is
    a member of both tiers. *)
Lemma addPairToTier_two_tiers :
  let w := assignAll
             [ {| a_chainName := "Ethereum"; a_tokenIn := "USDC";
                  a_tokenOut := "WETH"; a_tier := "TIER_1" |};
               {| a_chainName := "Ethereum"; a_tokenIn := "USDC";
                  a_tokenOut := "WETH"; a_tier := "TIER_2" |} ]
             (freshWorld ∅ tickingClock failingRouter) in
  tiersHolding "ethereum:usdc:weth" (tiers (this_config w)) = ["TIER_1"; "TIER_2"]
  ∧ ¬ (length (tiersHolding "ethereum:usdc:weth" (tiers (this_config w))) ≤ 1)%nat.
Proof.
  assert (tiersHolding "ethereum:usdc:weth"
            (tiers (this_config
               (assignAll
                  [ {| a_chainName := "Ethereum"; a_tokenIn := "USDC";
                       a_tokenOut := "WETH"; a_tier := "TIER_1" |};
                    {| a_chainName := "Ethereum"; a_tokenIn := "USDC";
                       a_tokenOut := "WETH"; a_tier := "TIER_2" |} ]
                  (freshWorld ∅ tickingClock failingRouter))))
          = ["TIER_1"; "TIER_2"]) as H by (vm_compute; reflexivity).
  cbv zeta. rewrite H. split; [done|]. simpl. lia.
Qed.

Lemma assignAll_accumulates_witness :
  let l := [ {| a_chainName := "Ethereum"; a_tokenIn := "USDC";
                a_tokenOut := "WETH"; a_tier := "TIER_1" |};
             {| a_chainName := "Ethereum"; a_tokenIn := "USDC";
                a_tokenOut := "WETH"; a_tier := "TIER_2" |} ] in
  let w := freshWorld ∅ tickingClock failingRouter in
  "ethereum:usdc:weth" ∈ members "TIER_1" (assignAll l w)
  ∧ "ethereum:usdc:weth" ∈ members "TIER_2" (assignAll l w).
Proof.
  intros l w.
  destruct (assignAll_accumulates l w) as [Hassigned Hkept].
  split.
  - apply (Hassigned {| a_chainName := "Ethereum"; a_tokenIn := "USDC";
                        a_tokenOut := "WETH"; a_tier := "TIER_1" |}).
    + apply elem_of_cons. left. reflexivity.
    + eexists. reflexivity.
  - apply (Hassigned {| a_chainName := "Ethereum"; a_tokenIn := "USDC";
                        a_tokenOut := "WETH"; a_tier := "TIER_2" |}).
    + apply elem_of_cons. right. apply elem_of_cons. left. reflexivity.
    + eexists. reflexivity.
Defined.

(** ** Freshness policy *)

Lemma tierByName_ttl (t : string) (tc : tierConfig)
    (ts : list (string * tierConfig)) :
  tierByName t ts = Some tc → (t, ttl tc) ∈ ((λ nc, (nc.1, ttl nc.2)) <$> ts).
Proof.
  induction ts as [|[n c] ts IH]; simpl; [done|].
  destruct (String.eqb n t) eqn:Hn.
  - apply String.eqb_eq in Hn as ->. intros [= ->]. apply elem_of_cons. by left.
  - intros H. apply elem_of_cons. right. by apply IH.
Qed.

Lemma tierByName_of_ttls (t : string) (ts ts' : list (string * tierConfig)) :
  ((λ nc, (nc.1, ttl nc.2)) <$> ts) = ((λ nc, (nc.1, ttl nc.2)) <$> ts') →
  ttl <$> tierByName t ts = ttl <$> tierByName t ts'.
Proof.
  revert ts'. induction ts as [|[n c] ts IH]; intros [|[n' c'] ts'];
    try done.
  rewrite !fmap_cons. simpl. intros [= -> Httl Hrest].
  destruct (String.eqb n' t); simpl; [by rewrite Httl|]. by apply IH.
Qed.

(** In a standard configuration the four labels are the configured ones,
    with the constructor's [ttl]s. *)
Lemma standard_tier_ttl (c : config) (t : string) (tc : tierConfig) :
  standardConfig c → tierByName t (tiers c) = Some tc →
  (t = "TIER_1" ∧ ttl tc = 10000) ∨ (t = "TIER_2" ∧ ttl tc = 60000)
  ∨ (t = "TIER_3" ∧ ttl tc = 300000) ∨ (t = "TIER_4" ∧ ttl tc = 600000).
Proof.
  intros [Httl _] Ht. apply tierByName_ttl in Ht.
  unfold tierTtls in Httl. rewrite Httl in Ht. simpl in Ht.
  repeat (apply elem_of_cons in Ht as [[= -> ->]|Ht]; [tauto|]).
  by apply elem_of_nil in Ht.
Qed.

Lemma standard_tier4 (c : config) :
  standardConfig c → ∃ tc, tierByName "TIER_4" (tiers c) = Some tc ∧ ttl tc = 600000.
Proof.
  intros [Httl _].
  pose proof (tierByName_of_ttls "TIER_4" (tiers c) (tiers initialConfig) Httl) as H.
  simpl in H. destruct (tierByName "TIER_4" (tiers c)) as [tc|]; [|done].
  exists tc. split; [done|]. by injection H.
Qed.

Lemma isExpired_run (e : cacheEntry) (w : world) (tc : tierConfig) :
  tierByName (tierOrDefault (tier e)) (tiers (this_config w)) = Some tc →
  isExpired e w
  = (setClockReads (S (clockReads w)) w,
     Return (ttl tc <? clock w (clockReads w) - timestamp e)%Z).
Proof. intros Ht. unfold isExpired. run_monad. cbn. by rewrite Ht. Qed.

Lemma canServeStale_run (e : cacheEntry) (w : world) :
  canServeStale e w
  = (setClockReads (S (clockReads w)) w,
     Return (clock w (clockReads w) - timestamp e <? maxStaleAge (this_config w))%Z).
Proof. reflexivity. Qed.

(** C5 (as the code has it): an entry is servable-stale if and only if its
    age is strictly below [maxStaleAge] (3600 s in the constructor's
    configuration); the check returns a boolean and never throws. *)
Theorem canServeStale_strictly_younger (e : cacheEntry) (w : world) :
  (canServeStale e w).2
  = Return (bool_decide
              (clock w (clockReads w) - timestamp e < maxStaleAge (this_config w)))
  ∧ maxStaleAge initialConfig = 3600 * 1000.
Proof.
  split; [|reflexivity].
  rewrite canServeStale_run. simpl. f_equal.
  destruct (Z.ltb_spec (clock w (clockReads w) - timestamp e)
              (maxStaleAge (this_config w)));
    [by rewrite bool_decide_eq_true_2|by rewrite bool_decide_eq_false_2; [|lia]].
Qed.

(** C5, counterexample: an entry whose age equals [maxStaleAge] exactly
    (so that age ≤ maxStaleAge holds) is refused by [canServeStale]. *)
Lemma canServeStale_at_maxStaleAge :
  let w := freshWorld ∅ (λ _, 3600000) failingRouter in
  let e := sampleEntry 0 (Some "TIER_1") in
  (clock w (clockReads w) - timestamp e ≤ maxStaleAge (this_config w))%Z
  ∧ (canServeStale e w).2 = Return false.
Proof. split; [vm_compute; discriminate | reflexivity]. Qed.

(** C9: for an entry whose [tier] field is absent or the empty string,
    [isExpired] returns whether the entry's age exceeds the [TIER_4] ttl of
    600 s; it does not throw, and an entry no older than that is not
    expired. *)
Theorem isExpired_without_tier (e : cacheEntry) (w : world) :
  standardConfig (this_config w) →
  tier e = None ∨ tier e = Some "" →
  (isExpired e w).2
  = Return (bool_decide (600 * 1000 < clock w (clockReads w) - timestamp e)).
Proof.
  intros Hstd Htier.
  destruct (standard_tier4 _ Hstd) as (tc & Htc & Httl).
  assert (tierOrDefault (tier e) = "TIER_4") as Hdef
    by (destruct Htier as [-> | ->]; reflexivity).
  rewrite (isExpired_run e w tc) by (by rewrite Hdef).
  simpl. f_equal. rewrite Httl.
  destruct (Z.ltb_spec 600000 (clock w (clockReads w) - timestamp e));
    [by rewrite bool_decide_eq_true_2|by rewrite bool_decide_eq_false_2; [|lia]].
Qed.

Lemma standardConfig_initial : standardConfig initialConfig.
Proof. by split. Qed.

Lemma isExpired_without_tier_witness :
  (isExpired (sampleEntry 0 None) (freshWorld ∅ (λ _, 600000) failingRouter)).2
  = Return false.
Proof.
  apply (isExpired_without_tier (sampleEntry 0 None)
           (freshWorld ∅ (λ _, 600000) failingRouter)).
  - split; reflexivity.
  - left. reflexivity.
Defined.

(** ** Writes to the store *)

Lemma setCache_run (key : string) (d : obj) (t : string) (tc : tierConfig)
    (w : world) :
  tierByName t (tiers (this_config w)) = Some tc →
  let e := {| data := d; timestamp := clock w (clockReads w); tier := Some t |} in
  let w1 := setClockReads (S (clockReads w)) w in
  setCache key d t w
  = if rejects (redis w) (length (calls (redis w)))
    then (setRedis (logCall (RSetex key (ttl tc / 1000) e) (redis w)) w1, Return ())
    else (setRedis
            {| store := <[key := {| value := e; expireSeconds := ttl tc / 1000 |}]>
                          (store (redis w));
               calls := calls (redis w) ++ [RSetex key (ttl tc / 1000) e];
               rejects := rejects (redis w) |} w1,
          Return ()).
Proof.
  intros Ht. unfold setCache, redis_setex. run_monad. cbn. rewrite Ht. cbn.
  by destruct (rejects (redis w) (length (calls (redis w)))).
Qed.

(** C8: for every key, payload and configured tier, [setCache] issues one
    [setex] for the key with exactly [floor(ttl / 1000)] seconds, and the
    store then holds the entry under that expiry; that expiry is the same
    duration as the tier's freshness boundary ([isExpired] reports the
    written entry expired exactly when its age exceeds the expiry), and it
    lies below [maxStaleAge]. *)
Theorem setCache_store_ttl (key : string) (d : obj) (t : string)
    (tc : tierConfig) (w : world) :
  standardConfig (this_config w) →
  tierByName t (tiers (this_config w)) = Some tc →
  let e := {| data := d; timestamp := clock w (clockReads w); tier := Some t |} in
  let w' := (setCache key d t w).1 in
  calls (redis w') = calls (redis w) ++ [RSetex key (ttl tc / 1000) e]
  ∧ (rejects (redis w) (length (calls (redis w))) = false →
     store (redis w') !! key
     = Some {| value := e; expireSeconds := ttl tc / 1000 |})
  ∧ 1000 * (ttl tc / 1000) = ttl tc
  ∧ 1000 * (ttl tc / 1000) < maxStaleAge (this_config w')
  ∧ (∀ w2, this_config w2 = this_config w' →
       (isExpired e w2).2
       = Return (bool_decide
                   (1000 * (ttl tc / 1000) < clock w2 (clockReads w2) - timestamp e))).
Proof.
  intros Hstd Ht e w'.
  assert (this_config w' = this_config w) as Hcfg.
  { subst w'. rewrite (setCache_run key d t tc w Ht).
    by destruct (rejects (redis w) (length (calls (redis w)))). }
  assert (1000 * (ttl tc / 1000) = ttl tc ∧ ttl tc < 3600000 ∧ t ≠ "") as (Hdiv & Hlt & Hne).
  { destruct (standard_tier_ttl _ t tc Hstd Ht)
      as [[-> ->]|[[-> ->]|[[-> ->]|[-> ->]]]]; by vm_compute. }
  split; [|split; [|split; [|split]]].
  - subst w'. rewrite (setCache_run key d t tc w Ht).
    by destruct (rejects (redis w) (length (calls (redis w)))).
  - intros Hok. subst w'. rewrite (setCache_run key d t tc w Ht), Hok.
    cbn. by rewrite lookup_insert_eq.
  - exact Hdiv.
  - rewrite Hcfg, Hdiv. destruct Hstd as [_ ->]. exact Hlt.
  - intros w2 Hw2.
    assert (tierOrDefault (tier e) = t) as Hdef.
    { simpl. destruct (String.eqb t "") eqn:Hq; [|done].
      by apply String.eqb_eq in Hq. }
    rewrite (isExpired_run e w2 tc) by (by rewrite Hdef, Hw2, Hcfg).
    simpl. f_equal. rewrite Hdiv.
    destruct (Z.ltb_spec (ttl tc) (clock w2 (clockReads w2) - clock w (clockReads w)));
      [by rewrite bool_decide_eq_true_2|by rewrite bool_decide_eq_false_2; [|lia]].
Qed.

Lemma setCache_store_ttl_witness :
  let w := freshWorld ∅ tickingClock failingRouter in
  let e := {| data := ∅; timestamp := 0; tier := Some "TIER_1" |} in
  calls (redis (setCache "price:ethereum:usdc:weth:1000:exactin" ∅ "TIER_1" w).1)
  = [RSetex "price:ethereum:usdc:weth:1000:exactin" 10 e].
Proof.
  intros w e.
  apply (setCache_store_ttl "price:ethereum:usdc:weth:1000:exactin" ∅ "TIER_1"
           {| ttl := 10000; refresh := Some 5000; pairs := ∅ |} w).
  - split; reflexivity.
  - reflexivity.
Defined.

(** ** The read path *)

Lemma getFromCache_run (key : string) (w : world) :
  getFromCache key w
  = (setRedis (logCall (RGet key) (redis w)) w,
     Return (readResult key (redis w) (length (calls (redis w))))).
Proof.
  unfold getFromCache, redis_get, readResult. run_monad.
  by destruct (rejects (redis w) (length (calls (redis w)))).
Qed.

#[local] Arguments getFromCache : simpl never.
#[local] Arguments isExpired : simpl never.
#[local] Arguments canServeStale : simpl never.
#[local] Arguments setCache : simpl never.
#[local] Arguments generateCacheKey : simpl never.
#[local] Arguments Nat.ltb : simpl never.
#[local] Arguments priorityNumber : simpl never.
#[local] Arguments formatResponse : simpl never.

Lemma formatResponse_no_flags (p : pairParams) (r : routeResult) :
  formatResponse p r !! "_stale" = None
  ∧ formatResponse p r !! "_veryStale" = None
  ∧ formatResponse p r !! "_error" = None.
Proof. repeat split; vm_compute; reflexivity. Qed.

Lemma setCache_returns (key : string) (d : obj) (t : string) (w : world) :
  (setCache key d t w).2 = Return ().
Proof.
  unfold setCache, redis_setex, Date_now. run_monad. cbn.
  destruct (tierByName t (tiers (this_config w))); cbn; [|done].
  by destruct (rejects (redis w) (length (calls (redis w)))).
Qed.

#[local] Arguments readResult : simpl never.

Lemma length_snoc {A} (l : list A) (x : A) : length (l ++ [x]) = S (length l).
Proof. rewrite length_app. simpl. lia. Qed.

Lemma setCache_routerCalls (key : string) (d : obj) (t : string) (w : world) :
  routerCalls (setCache key d t w).1 = routerCalls w.
Proof.
  unfold setCache, redis_setex, Date_now. run_monad. cbn.
  destruct (tierByName t (tiers (this_config w))); cbn; [|done].
  by destruct (rejects (redis w) (length (calls (redis w)))).
Qed.

Lemma snoc_neq {A} (l : list A) (x : A) : l ++ [x] ≠ l.
Proof.
  intros H. apply (f_equal length) in H. rewrite length_snoc in H. lia.
Qed.

(** The tail of the [try] block: the miss is counted and the router is
    called; [Hrouter] is how that call ends. *)
Ltac fetch_path Hrouter :=
  unfold fetchPrice, getPriceForPair, getTierForPair, Date_now in *;
  run_monad; cbn in *;
  rewrite Hrouter in *; cbn in *.

(** [setCache] is awaited inside the [try] block; it returns. *)
Ltac await_setCache :=
  match goal with
  | |- context [setCache ?k ?d ?t ?w0] =>
      let Hcalls := fresh "Hcalls" in
      let Hret := fresh "Hret" in
      pose proof (setCache_routerCalls k d t w0) as Hcalls;
      pose proof (setCache_returns k d t w0) as Hret;
      destruct (setCache k d t w0) as [? [[]|]]; cbn in *; [|done]
  end.

Section ReadPath.

(** One request, served in the world [w]. *)
Variables chain tin tout amt tt : string.
Variable w : world.

Let key : string := generateCacheKey chain tin tout amt tt.
Let p : pairParams :=
  {| chainName := chain; tokenInSymbol := tin; tokenOutSymbol := tout;
     amount := amt; tradeType := tt |}.
Let n : nat := clockReads w.

(** C3: when the store holds an entry for the request that is not fresh
    (its age exceeds its tier's ttl) but may be served stale, [getPrice]
    hands one [fetch-price] job for that request to the queue with the
    background priority, increments the hit counter and not the miss
    counter, returns the cached quote with [_stale] set, and does not call
    the router. *)
Theorem getPrice_stale_while_revalidate (c : cacheEntry) (tc : tierConfig) :
  readResult key (redis w) (length (calls (redis w))) = Some c →
  tierByName (tierOrDefault (tier c)) (tiers (this_config w)) = Some tc →
  ttl tc < clock w (S n) - timestamp c →
  clock w (S (S n)) - timestamp c < maxStaleAge (this_config w) →
  let w' := (getPrice chain tin tout amt tt w).1 in
  (getPrice chain tin tout amt tt w).2
  = Return (<["_stale" := JBool true]> (data c))
  ∧ added (priceQueue w')
    = added (priceQueue w)
      ++ [ {| jobName := "fetch-price";
              jobPayload := {| params := p; jobTimestamp := clock w (S (S (S n))) |};
              jobOpts :=
                {| priority := -1; attempts := 3;
                   backoff := {| backoffType := "exponential"; delay := 2000 |} |} |} ]
  ∧ cacheHits (this_metrics w') = (cacheHits (this_metrics w) + 1)%N
  ∧ cacheMisses (this_metrics w') = cacheMisses (this_metrics w)
  ∧ routerCalls w' = routerCalls w.
Proof.
  intros Hread Htier Hexp Hserv w'. subst w'.
  unfold getPrice. run_monad. cbn.
  rewrite getFromCache_run. cbn. fold key. rewrite Hread.
  rewrite (isExpired_run c _ tc) by done. cbn. fold n.
  destruct (Z.ltb_spec (ttl tc) (clock w (S n) - timestamp c)) as [_|?]; [|lia].
  cbn. rewrite canServeStale_run. cbn. fold n.
  destruct (Z.ltb_spec (clock w (S (S n)) - timestamp c)
              (maxStaleAge (this_config w))) as [_|?]; [|lia].
  unfold queuePriceUpdate, queue_add, Date_now. run_monad. cbn.
  repeat split; reflexivity.
Qed.

(** The router is called during [getPrice] exactly when the first lookup
    finds no entry, or an entry that is expired and too old to be served. *)
Lemma getPrice_fetches_iff :
  routerCalls (getPrice chain tin tout amt tt w).1 ≠ routerCalls w
  ↔ branchOf key w = FetchNow.
Proof.
  unfold branchOf, getPrice. run_monad. cbn.
  rewrite getFromCache_run. cbn. fold key.
  destruct (readResult key (redis w) (length (calls (redis w)))) as [c|] eqn:Hread.
  - destruct (tierByName (tierOrDefault (tier c)) (tiers (this_config w)))
      as [tc|] eqn:Htier.
    + rewrite (isExpired_run c _ tc) by done. cbn.
      destruct (ttl tc <? clock w (S (clockReads w)) - timestamp c); cbn.
      * rewrite canServeStale_run. cbn.
        destruct (clock w (S (S (clockReads w))) - timestamp c
                  <? maxStaleAge (this_config w)); cbn.
        -- unfold queuePriceUpdate, queue_add, Date_now. run_monad. cbn.
           split; [intros H; by destruct H|done].
        -- split; [done|intros _].
           unfold fetchPrice, getPriceForPair, getTierForPair, Date_now.
           run_monad. cbn.
           destruct (router w (length (routerCalls w)) _) as [e|r]; cbn.
           ++ rewrite getFromCache_run. cbn.
              destruct (readResult _ (logCall _ (redis w)) _); cbn; apply snoc_neq.
           ++ await_setCache. rewrite Hcalls. apply snoc_neq.
      * split; [intros H; by destruct H|done].
    + unfold isExpired. run_monad. cbn. rewrite Htier. cbn.
      rewrite getFromCache_run. cbn.
      destruct (readResult _ (logCall _ (redis w)) _); cbn;
        (split; [intros H; by destruct H|done]).
  - split; [done|intros _].
    unfold fetchPrice, getPriceForPair, getTierForPair, Date_now.
    run_monad. cbn.
    destruct (router w (length (routerCalls w)) _) as [e|r]; cbn.
    + rewrite getFromCache_run. cbn.
      destruct (readResult _ (logCall _ (redis w)) _); cbn; apply snoc_neq.
    + await_setCache. rewrite Hcalls. apply snoc_neq.
Qed.

(** The outcome of a request whose first lookup selects the fetch, by how
    the router call ends. *)
Lemma getPrice_on_fetch :
  branchOf key w = FetchNow →
  match router w (length (routerCalls w)) p with
  | inl e =>
      calls (redis (getPrice chain tin tout amt tt w).1)
      = calls (redis w) ++ [RGet key; RGet key]
      ∧ (getPrice chain tin tout amt tt w).2
        = match readResult key (redis w) (S (length (calls (redis w)))) with
          | Some c =>
              Return (<["_veryStale" := JBool true]>
                        (<["_error" := JStr (message e)]> (data c)))
          | None => Throw e
          end
  | inr r => (getPrice chain tin tout amt tt w).2 = Return (formatResponse p r)
  end.
Proof.
  assert (∀ wm,
    redis wm = logCall (RGet key) (redis w) →
    routerCalls wm = routerCalls w →
    router wm = router w →
    match router w (length (routerCalls w)) p with
    | inl e =>
        calls (redis
          (tryCatch
             (price ← fetchPrice chain tin tout amt tt;
              tierName ← getTierForPair chain tin tout;
              setCache key price tierName;;
              now ← Date_now;
              recordResponseTime (now - clock w n);;
              mret price)
             (λ error,
                incErrors;;
                cached ← getFromCache key;
                match cached with
                | Some c =>
                    mret (<["_veryStale" := JBool true]>
                            (<["_error" := JStr (message error)]> (data c)))
                | None => throw error
                end) wm).1)
        = calls (redis w) ++ [RGet key; RGet key]
        ∧ (tryCatch
             (price ← fetchPrice chain tin tout amt tt;
              tierName ← getTierForPair chain tin tout;
              setCache key price tierName;;
              now ← Date_now;
              recordResponseTime (now - clock w n);;
              mret price)
             (λ error,
                incErrors;;
                cached ← getFromCache key;
                match cached with
                | Some c =>
                    mret (<["_veryStale" := JBool true]>
                            (<["_error" := JStr (message error)]> (data c)))
                | None => throw error
                end) wm).2
          = match readResult key (redis w) (S (length (calls (redis w)))) with
            | Some c =>
                Return (<["_veryStale" := JBool true]>
                          (<["_error" := JStr (message e)]> (data c)))
            | None => Throw e
            end
    | inr r =>
        (tryCatch
           (price ← fetchPrice chain tin tout amt tt;
            tierName ← getTierForPair chain tin tout;
            setCache key price tierName;;
            now ← Date_now;
            recordResponseTime (now - clock w n);;
            mret price)
           (λ error,
              incErrors;;
              cached ← getFromCache key;
              match cached with
              | Some c =>
                  mret (<["_veryStale" := JBool true]>
                          (<["_error" := JStr (message error)]> (data c)))
              | None => throw error
              end) wm).2
        = Return (formatResponse p r)
    end) as Htail.
  { intros wm Hredis Hcalls Hrouter.
    unfold fetchPrice, getPriceForPair, getTierForPair, Date_now.
    run_monad. cbn. rewrite Hcalls, Hrouter. fold p.
    destruct (router w (length (routerCalls w)) p) as [e|r]; cbn.
    - rewrite getFromCache_run. cbn. rewrite Hredis. cbn.
      rewrite length_snoc.
      change (readResult key (logCall (RGet key) (redis w)))
        with (readResult key (redis w)).
      destruct (readResult key (redis w) (S (length (calls (redis w)))));
        cbn; by rewrite <- app_assoc.
    - fold key. await_setCache. reflexivity. }
  unfold branchOf, getPrice. run_monad. cbn.
  rewrite getFromCache_run. cbn. fold key n.
  destruct (readResult key (redis w) (length (calls (redis w)))) as [c|].
  - destruct (tierByName (tierOrDefault (tier c)) (tiers (this_config w)))
      as [tc|] eqn:Htier; [|done].
    rewrite (isExpired_run c _ tc) by done. cbn. fold n.
    destruct (ttl tc <? clock w (S n) - timestamp c); [|done]. cbn.
    rewrite canServeStale_run. cbn. fold n.
    destruct (clock w (S (S n)) - timestamp c <? maxStaleAge (this_config w));
      [done|]. cbn.
    intros _. apply (Htail (setMetrics _ _)); reflexivity.
  - intros _. apply (Htail (setMetrics _ _)); reflexivity.
Qed.

(** C4: when the synchronous fetch of a request fails, [getPrice] reads the
    store once more (two reads of the key in all), and returns the entry
    found by that read with [_veryStale] set and [_error] set to the
    failure's message; when that read finds no entry the failure itself is
    thrown to the caller. *)
Theorem getPrice_fetch_failure (e : error) :
  routerCalls (getPrice chain tin tout amt tt w).1 ≠ routerCalls w →
  router w (length (routerCalls w)) p = inl e →
  calls (redis (getPrice chain tin tout amt tt w).1)
  = calls (redis w) ++ [RGet key; RGet key]
  ∧ (getPrice chain tin tout amt tt w).2
    = match readResult key (redis w) (S (length (calls (redis w)))) with
      | Some c =>
          Return (<["_veryStale" := JBool true]>
                    (<["_error" := JStr (message e)]> (data c)))
      | None => Throw e
      end.
Proof.
  intros Hcalled%getPrice_fetches_iff Hfail.
  pose proof (getPrice_on_fetch Hcalled) as Hrun.
  by rewrite Hfail in Hrun.
Qed.

(** When the synchronous fetch succeeds, [getPrice] returns the router's
    quote as [getPriceForPair] formats it. *)
Lemma getPrice_fetch_success (r : routeResult) :
  routerCalls (getPrice chain tin tout amt tt w).1 ≠ routerCalls w →
  router w (length (routerCalls w)) p = inr r →
  (getPrice chain tin tout amt tt w).2 = Return (formatResponse p r).
Proof.
  intros Hcalled%getPrice_fetches_iff Hok.
  pose proof (getPrice_on_fetch Hcalled) as Hrun.
  by rewrite Hok in Hrun.
Qed.

End ReadPath.
Lemma getPrice_stale_while_revalidate_witness :
  let key := "price:ethereum:usdc:weth:1000:exactin" in
  let c := sampleEntry (-30000) (Some "TIER_1") in
  let w := freshWorld {[ key := {| value := c; expireSeconds := 10 |} ]}
             tickingClock workingRouter in
  (getPrice "Ethereum" "USDC" "WETH" "1000" "exactIn" w).2
  = Return (<["_stale" := JBool true]> (data c)).
Proof.
  intros key c w.
  apply (getPrice_stale_while_revalidate "Ethereum" "USDC" "WETH" "1000"
           "exactIn" w c {| ttl := 10000; refresh := Some 5000; pairs := ∅ |}).
  - vm_compute. reflexivity.
  - reflexivity.
  - vm_compute. reflexivity.
  - vm_compute. reflexivity.
Defined.

Lemma getPrice_fetch_failure_witness :
  let key := "price:ethereum:usdc:weth:1000:exactin" in
  let c := sampleEntry (-4000000) (Some "TIER_1") in
  let w := freshWorld {[ key := {| value := c; expireSeconds := 10 |} ]}
             tickingClock failingRouter in
  (getPrice "Ethereum" "USDC" "WETH" "1000" "exactIn" w).2
  = Return (<["_veryStale" := JBool true]>
              (<["_error" := JStr "No route found for USDC -> WETH on Ethereum"]>
                 (data c))).
Proof.
  intros key c w.
  destruct (getPrice_fetch_failure "Ethereum" "USDC" "WETH" "1000" "exactIn" w
              (Error "No route found for USDC -> WETH on Ethereum"))
    as [Hreads Hresult].
  - vm_compute. discriminate.
  - reflexivity.
  - exact Hresult.
Defined.


(** ** The single-pair route *)

(** C10: a [GET /price] request that is served by a successful synchronous
    fetch (nothing usable was cached, the router was called and answered)
    is answered with status 200 and [metadata.cached = true]; in every
    price response [cached] is the conjunction of the negations of the
    [stale] and [veryStale] flags. *)
Theorem priceRoute_fetched_reports_cached
    (chain tin tout : string) (queryAmount queryTradeType : option string)
    (w : world) (r : routeResult) :
  let amt := default "1000" queryAmount in
  let tt := default "exactIn" queryTradeType in
  let p := {| chainName := chain; tokenInSymbol := tin; tokenOutSymbol := tout;
              amount := amt; tradeType := tt |} in
  routerCalls (getPrice chain tin tout amt tt w).1 ≠ routerCalls w →
  router w (length (routerCalls w)) p = inr r →
  (∃ w' now,
     priceRoute chain tin tout queryAmount queryTradeType w
     = (w', Return
              {| status := 200;
                 cacheControl := Some "public, max-age=30";
                 body := PriceBody (formatResponse p r)
                           {| cached := true; stale := false; veryStale := false;
                              metaError := JNull; metaTimestamp := now |} |}))
  ∧ (∀ w0 w1 st cc price meta,
       priceRoute chain tin tout queryAmount queryTradeType w0
       = (w1, Return {| status := st; cacheControl := cc;
                        body := PriceBody price meta |}) →
       cached meta = negb (stale meta) && negb (veryStale meta)).
Proof.
  intros amt tt p Hcalled Hok. split.
  - pose proof (getPrice_fetch_success chain tin tout amt tt w r Hcalled Hok)
      as Hprice.
    unfold priceRoute. run_monad. fold amt tt.
    destruct (getPrice chain tin tout amt tt w) as [wg og]. simpl in Hprice.
    subst og. fold p.
    destruct (formatResponse_no_flags p r) as (Hs & Hv & He).
    unfold Date_now, getProp. rewrite Hs, Hv, He. cbn.
    eexists _, _. reflexivity.
  - intros w0 w1 st cc price meta. unfold priceRoute, Date_now. run_monad.
    destruct (getPrice chain tin tout (default "1000" queryAmount)
                (default "exactIn" queryTradeType) w0) as [wg [price'|err]];
      intros [= _ _ _ _ <-]; reflexivity.
Qed.

Lemma priceRoute_fetched_reports_cached_witness :
  ∃ w' now,
    priceRoute "Ethereum" "USDC" "WETH" None None
      (freshWorld ∅ tickingClock workingRouter)
    = (w', Return
             {| status := 200;
                cacheControl := Some "public, max-age=30";
                body := PriceBody (formatResponse (ethUsdcWeth "1000") sampleRoute)
                          {| cached := true; stale := false; veryStale := false;
                             metaError := JNull; metaTimestamp := now |} |}).
Proof.
  destruct (priceRoute_fetched_reports_cached "Ethereum" "USDC" "WETH" None None
              (freshWorld ∅ tickingClock workingRouter) sampleRoute)
    as [Hresp Hflags].
  - vm_compute. discriminate.
  - reflexivity.
  - exact Hresp.
Defined.

(** ** No gate in front of the router *)

(** [fetchPrice] calls the router on every call, whatever the history of
    the world: nothing reads [circuitBreaker]. *)
Lemma fetchPrice_always_calls_router
    (chain tin tout amt tt : string) (w : world) :
  routerCalls (fetchPrice chain tin tout amt tt w).1
  = routerCalls w
    ++ [ {| chainName := chain; tokenInSymbol := tin; tokenOutSymbol := tout;
            amount := amt; tradeType := tt |} ].
Proof.
  unfold fetchPrice, getPriceForPair.
  by destruct (router w (length (routerCalls w)) _).
Qed.

(** C1, evaluated: with an empty store and a router that fails every call,
    five requests for distinct keys fail one after the other (five router
    calls, as many as [failureThreshold]); the sixth request, made 5 s
    after the first and so within [resetTimeout], calls the router a sixth
    time and throws the router's own error. *)
Theorem sixth_request_calls_router :
  let w0 := freshWorld ∅ tickingClock failingRouter in
  let five := serve [ethUsdcWeth "1"; ethUsdcWeth "2"; ethUsdcWeth "3";
                     ethUsdcWeth "4"; ethUsdcWeth "5"] w0 in
  let sixth := getPriceOf (ethUsdcWeth "6") five.1 in
  five.2 = replicate 5 (Throw (Error "No route found for USDC -> WETH on Ethereum"))
  ∧ length (routerCalls five.1) = 5%nat
  ∧ failureThreshold (circuitBreaker (this_config five.1)) = 5
  ∧ clock five.1 (clockReads five.1) - clock w0 0
    < resetTimeout (circuitBreaker (this_config five.1))
  ∧ routerCalls sixth.1 = routerCalls five.1 ++ [ethUsdcWeth "6"]
  ∧ sixth.2 = Throw (Error "No route found for USDC -> WETH on Ethereum").
Proof. vm_compute. repeat split; reflexivity. Qed.

(** ** Metrics *)

Lemma orZero_Num (q : Qc) : orZero (Num q) = Num q.
Proof. simpl. case_decide; [by subst|done]. Qed.

(** C7: [getMetrics] returns, and the [hitRate] it reports is
    [cacheHits / (cacheHits + cacheMisses)] whenever that denominator is
    positive, and [0] when both counters are [0]. *)
Theorem getMetrics_hitRate (w : world) :
  let h := Z.of_N (cacheHits (this_metrics w)) in
  let m := Z.of_N (cacheMisses (this_metrics w)) in
  ∃ w' report,
    getMetrics w = (w', Return report)
    ∧ (0 < h + m → hitRate report = Num (ofZ h / ofZ (h + m))%Qc)
    ∧ (h = 0 → m = 0 → hitRate report = Num 0%Qc).
Proof.
  intros h m. unfold getMetrics, Date_now. run_monad.
  eexists _, _. split; [reflexivity|]. cbn.
  fold h m. split.
  - intros Hpos. unfold jsDiv.
    destruct (Z.eqb_spec (h + m) 0) as [H0|_]; [lia|].
    apply orZero_Num.
  - intros -> ->. reflexivity.
Qed.

Lemma getMetrics_hitRate_witness :
  let m := {| cacheHits := 3; cacheMisses := 1; errors := 0;
              responseTime := []; lastReset := 0 |} in
  ∃ w' report,
    getMetrics (setMetrics m (freshWorld ∅ tickingClock failingRouter))
    = (w', Return report)
    ∧ hitRate report = Num (ofZ 3 / ofZ 4)%Qc.
Proof.
  intros m.
  destruct (getMetrics_hitRate
              (setMetrics m (freshWorld ∅ tickingClock failingRouter)))
    as (w' & report & Hrun & Hpos & Hzero).
  exists w', report. split; [exact Hrun|].
  apply Hpos. reflexivity.
Defined.

(** * Further properties *)

(** ** Cache keys are collision-free on colon-free parameters *)

Lemma lowerChar_idem (c : ascii) : Str.lowerChar (Str.lowerChar c) = Str.lowerChar c.
Proof. by destruct c as [[] [] [] [] [] [] [] []]. Qed.

Lemma toLowerCase_idem (s : string) :
  Str.toLowerCase (Str.toLowerCase s) = Str.toLowerCase s.
Proof. induction s as [|c s IH]; simpl; [done|]. by rewrite lowerChar_idem, IH. Qed.

Lemma lowerChar_colon (c : ascii) :
  Ascii.eqb (Str.lowerChar c) ":" = Ascii.eqb c ":".
Proof. by destruct c as [[] [] [] [] [] [] [] []]. Qed.

Lemma freeOf_toLowerCase (s : string) :
  freeOf ":" (Str.toLowerCase s) = freeOf ":" s.
Proof. induction s as [|c s IH]; simpl; [done|]. by rewrite lowerChar_colon, IH. Qed.

(** A colon-free prefix followed by a colon is read back unambiguously. *)
Lemma colon_prefix_unique (a a' r r' : string) :
  freeOf ":" a = true → freeOf ":" a' = true →
  a +:+ ":" +:+ r = a' +:+ ":" +:+ r' → a = a' ∧ r = r'.
Proof.
  revert a'. induction a as [|c a IH]; intros [|c' a']; simpl.
  - intros _ _ [= Hr]. by subst.
  - intros _ [Hc _]%andb_true_iff [= Hcc _]. subst c'.
    by rewrite Ascii.eqb_refl in Hc.
  - intros [Hc _]%andb_true_iff _ [= Hcc _]. subst c.
    by rewrite Ascii.eqb_refl in Hc.
  - intros [_ Ha]%andb_true_iff [_ Ha']%andb_true_iff [= Hcc Hrest]. subst c'.
    destruct (IH a' Ha Ha' Hrest) as [Haa Hrr]. by subst.
Qed.

(** X1: on parameters whose first four components contain no colon, equal
    cache keys come only from tuples that are equal up to letter case: the
    key of one request is never the key of a different pair, amount or
    direction. *)
Theorem generateCacheKey_injective (c1 i1 o1 a1 t1 c2 i2 o2 a2 t2 : string) :
  freeOf ":" c1 = true → freeOf ":" i1 = true →
  freeOf ":" o1 = true → freeOf ":" a1 = true →
  freeOf ":" c2 = true → freeOf ":" i2 = true →
  freeOf ":" o2 = true → freeOf ":" a2 = true →
  generateCacheKey c1 i1 o1 a1 t1 = generateCacheKey c2 i2 o2 a2 t2 →
  Str.toLowerCase c1 = Str.toLowerCase c2
  ∧ Str.toLowerCase i1 = Str.toLowerCase i2
  ∧ Str.toLowerCase o1 = Str.toLowerCase o2
  ∧ Str.toLowerCase a1 = Str.toLowerCase a2
  ∧ Str.toLowerCase t1 = Str.toLowerCase t2.
Proof.
  intros Hc1 Hi1 Ho1 Ha1 Hc2 Hi2 Ho2 Ha2.
  rewrite !generateCacheKey_lowercased_join. simpl. intros [= Hkey].
  apply colon_prefix_unique in Hkey as [Hc Hkey];
    [|by rewrite freeOf_toLowerCase..].
  apply colon_prefix_unique in Hkey as [Hi Hkey];
    [|by rewrite freeOf_toLowerCase..].
  apply colon_prefix_unique in Hkey as [Ho Hkey];
    [|by rewrite freeOf_toLowerCase..].
  apply colon_prefix_unique in Hkey as [Ha Ht];
    [|by rewrite freeOf_toLowerCase..].
  done.
Qed.

Lemma generateCacheKey_injective_witness :
  Str.toLowerCase "Ethereum" = Str.toLowerCase "ETHEREUM"
  ∧ Str.toLowerCase "USDC" = Str.toLowerCase "usdc"
  ∧ Str.toLowerCase "WETH" = Str.toLowerCase "Weth"
  ∧ Str.toLowerCase "1000" = Str.toLowerCase "1000"
  ∧ Str.toLowerCase "exactIn" = Str.toLowerCase "EXACTIN".
Proof.
  apply (generateCacheKey_injective "Ethereum" "USDC" "WETH" "1000" "exactIn"
           "ETHEREUM" "usdc" "Weth" "1000" "EXACTIN"); reflexivity.
Defined.

(** With a colon inside a component two different requests share a key. *)
Lemma generateCacheKey_colon_collision :
  generateCacheKey "a:b" "c" "d" "1" "exactIn"
  = generateCacheKey "a" "b:c" "d" "1" "exactIn".
Proof. reflexivity. Qed.

(** ** Resolving a pair to its tier *)

Lemma getTierForPair_run (c i o : string) (w : world) :
  getTierForPair c i o w
  = (w, Return (default "TIER_4"
                  (firstTierHolding (pairKeyOf c i o) (tiers (this_config w))))).
Proof. reflexivity. Qed.

Lemma pairKeyOf_eqUpToCase (c i o c' i' o' : string) :
  Str.eqUpToCase c c' = true → Str.eqUpToCase i i' = true →
  Str.eqUpToCase o o' = true → pairKeyOf c i o = pairKeyOf c' i' o'.
Proof.
  intros Hc%toLowerCase_eqUpToCase Hi%toLowerCase_eqUpToCase
    Ho%toLowerCase_eqUpToCase.
  unfold pairKeyOf. rewrite !toLowerCase_app. by rewrite Hc, Hi, Ho.
Qed.

(** A standard configuration lists the four tiers in order. *)
Lemma standard_shape (c : config) :
  standardConfig c →
  ∃ c1 c2 c3 c4,
    tiers c = [("TIER_1", c1); ("TIER_2", c2); ("TIER_3", c3); ("TIER_4", c4)].
Proof.
  intros [Httl _]. unfold tierTtls in Httl. simpl in Httl.
  destruct (tiers c) as [|[n1 c1] [|[n2 c2] [|[n3 c3] [|[n4 c4] [|]]]]];
    try discriminate Httl.
  injection Httl as -> _ -> _ -> _ -> _.
  by exists c1, c2, c3, c4.
Qed.

Lemma addPair_holds (k : string) (c : tierConfig) :
  bool_decide (k ∈ pairs (addPair k c)) = true.
Proof.
  apply bool_decide_eq_true_2. simpl. apply elem_of_union. left.
  by apply elem_of_singleton.
Qed.

(** X7: under the constructor's tiers, after [addPairToTier] puts a pair
    into tier [t], [getTierForPair] answers for that pair (in any letter
    case) whichever of [t] and its previous answer comes first in
    [TIER_1 .. TIER_4]: an assignment can move a pair to a higher tier,
    never to a lower one. *)
Theorem getTierForPair_after_addPairToTier
    (c i o c' i' o' t t0 : string) (w : world) :
  standardConfig (this_config w) →
  t ∈ tierLabels →
  Str.eqUpToCase c c' = true → Str.eqUpToCase i i' = true →
  Str.eqUpToCase o o' = true →
  (getTierForPair c' i' o' w).2 = Return t0 →
  (getTierForPair c' i' o' (addPairToTier c i o t w).1).2
  = Return (firstOf t t0 tierLabels).
Proof.
  intros Hstd Ht Hc Hi Ho.
  rewrite !getTierForPair_run. cbn [snd].
  rewrite <- (pairKeyOf_eqUpToCase c i o c' i' o' Hc Hi Ho).
  destruct (standard_shape _ Hstd) as (c1 & c2 & c3 & c4 & Hshape).
  unfold addPairToTier. run_monad. rewrite Hshape.
  generalize (pairKeyOf c i o). intros k.
  pose proof (addPair_holds k c1) as H1. pose proof (addPair_holds k c2) as H2.
  pose proof (addPair_holds k c3) as H3. pose proof (addPair_holds k c4) as H4.
  unfold tierLabels in Ht.
  repeat (apply elem_of_cons in Ht as [->|Ht]);
    [..|by apply elem_of_nil in Ht];
    cbn -[addPair]; rewrite ?Hshape; cbn -[addPair];
    rewrite ?H1, ?H2, ?H3, ?H4;
    destruct (bool_decide (k ∈ pairs c1)); cbn -[addPair];
      rewrite ?H1, ?H2, ?H3, ?H4; try (by intros [= <-]);
    destruct (bool_decide (k ∈ pairs c2)); cbn -[addPair];
      rewrite ?H1, ?H2, ?H3, ?H4; try (by intros [= <-]);
    destruct (bool_decide (k ∈ pairs c3)); cbn -[addPair];
      rewrite ?H1, ?H2, ?H3, ?H4; try (by intros [= <-]);
    destruct (bool_decide (k ∈ pairs c4)); cbn -[addPair];
      rewrite ?H1, ?H2, ?H3, ?H4; by intros [= <-].
Qed.

Lemma getTierForPair_after_addPairToTier_witness :
  (getTierForPair "ETHEREUM" "usdc" "weth"
     (addPairToTier "Ethereum" "USDC" "WETH" "TIER_2"
        (freshWorld ∅ tickingClock failingRouter)).1).2
  = Return "TIER_2".
Proof.
  apply (getTierForPair_after_addPairToTier "Ethereum" "USDC" "WETH"
           "ETHEREUM" "usdc" "weth" "TIER_2" "TIER_4"
           (freshWorld ∅ tickingClock failingRouter)).
  - split; reflexivity.
  - apply elem_of_cons. right. apply elem_of_cons. left. reflexivity.
  - reflexivity.
  - reflexivity.
  - reflexivity.
  - reflexivity.
Defined.

Lemma firstTierHolding_other (k k' t : string) (ts : list (string * tierConfig)) :
  k' ≠ k →
  firstTierHolding k' (updateTier t (addPair k) ts) = firstTierHolding k' ts.
Proof.
  intros Hne. induction ts as [|[n c] ts IH]; simpl; [done|].
  destruct (String.eqb n t); simpl.
  - assert (bool_decide (k' ∈ {[k]} ∪ pairs c) = bool_decide (k' ∈ pairs c)) as ->.
    { apply bool_decide_ext. rewrite elem_of_union, elem_of_singleton. tauto. }
    done.
  - by rewrite IH.
Qed.

(** X8: assigning one pair to a tier never changes the tier another pair
    resolves to, whatever the configuration and the label. *)
Theorem getTierForPair_other_pair (c i o t c' i' o' : string) (w : world) :
  pairKeyOf c' i' o' ≠ pairKeyOf c i o →
  (getTierForPair c' i' o' (addPairToTier c i o t w).1).2
  = (getTierForPair c' i' o' w).2.
Proof.
  intros Hne. rewrite !getTierForPair_run. cbn [snd].
  unfold addPairToTier. run_monad.
  destruct (tierByName t (tiers (this_config w))); cbn; [|done].
  by rewrite firstTierHolding_other.
Qed.

Lemma getTierForPair_other_pair_witness :
  (getTierForPair "Ethereum" "WBTC" "WETH"
     (addPairToTier "Ethereum" "USDC" "WETH" "TIER_1"
        (freshWorld ∅ tickingClock failingRouter)).1).2
  = (getTierForPair "Ethereum" "WBTC" "WETH"
       (freshWorld ∅ tickingClock failingRouter)).2.
Proof.
  apply (getTierForPair_other_pair "Ethereum" "USDC" "WETH" "TIER_1"
           "Ethereum" "WBTC" "WETH" (freshWorld ∅ tickingClock failingRouter)).
  vm_compute. discriminate.
Defined.

(** ** More on the read path *)

Lemma setCache_frame (key : string) (d : obj) (t : string) (w : world) :
  this_metrics (setCache key d t w).1 = this_metrics w
  ∧ this_config (setCache key d t w).1 = this_config w
  ∧ priceQueue (setCache key d t w).1 = priceQueue w
  ∧ router (setCache key d t w).1 = router w
  ∧ clock (setCache key d t w).1 = clock w.
Proof.
  unfold setCache, redis_setex, Date_now. run_monad. cbn.
  destruct (tierByName t (tiers (this_config w))); cbn; [|done].
  by destruct (rejects (redis w) (length (calls (redis w)))).
Qed.

(** The label [getTierForPair] answers is a configured one. *)
Lemma getTierForPair_configured (c : config) (k : string) :
  standardConfig c →
  ∃ tc, tierByName (default "TIER_4" (firstTierHolding k (tiers c))) (tiers c)
        = Some tc
        ∧ default "TIER_4" (firstTierHolding k (tiers c)) ≠ "".
Proof.
  intros Hstd. destruct (standard_shape _ Hstd) as (c1 & c2 & c3 & c4 & ->).
  simpl.
  destruct (bool_decide (k ∈ pairs c1)); [by eexists|].
  destruct (bool_decide (k ∈ pairs c2)); [by eexists|].
  destruct (bool_decide (k ∈ pairs c3)); [by eexists|].
  destruct (bool_decide (k ∈ pairs c4)); by eexists.
Qed.

(** The case analysis of [getPrice] on its first lookup: the goals are, in
    order, the stale branch, the fetch after an unusable entry, the fresh
    branch, the throwing check, and the fetch on a miss. *)
Ltac read_paths w :=
  unfold branchOf, getPrice; run_monad; cbn;
  rewrite getFromCache_run; cbn;
  match goal with
  | |- context [readResult ?k (redis w) (length (calls (redis w)))] =>
      destruct (readResult k (redis w) (length (calls (redis w))))
        as [?c|] eqn:Hread
  end;
  [ match goal with
    | Hread : _ = Some ?c |- _ =>
        destruct (tierByName (tierOrDefault (tier c)) (tiers (this_config w)))
          as [?tc|] eqn:Htier;
        [ match goal with
          | Htier : _ = Some ?tc |- _ =>
              rewrite (isExpired_run c _ tc) by done; cbn;
              destruct (ttl tc <? clock w (S (clockReads w)) - timestamp c)
                eqn:Hexp;
              cbn;
              [ rewrite canServeStale_run; cbn;
                destruct (clock w (S (S (clockReads w))) - timestamp c
                          <? maxStaleAge (this_config w)) eqn:Hserv; cbn
              | ]
          end
        | unfold isExpired; run_monad; cbn; rewrite Htier; cbn;
          rewrite getFromCache_run; cbn ]
    end
  | ].

(** The two ways the fetch ends: the router fails and the store is read
    again, or it succeeds and the quote is written. *)
Ltac fetch_cases w :=
  unfold fetchPrice, getPriceForPair, getTierForPair, Date_now;
  run_monad; cbn;
  match goal with
  | |- context [router w (length (routerCalls w)) ?q] =>
      destruct (router w (length (routerCalls w)) q) as [?e|?r] eqn:Hrouter
  end; cbn;
  [ rewrite getFromCache_run; cbn
  | match goal with
    | |- context [setCache ?k ?d ?t ?w0] =>
        let Hframe := fresh "Hframe" in
        let Hret := fresh "Hret" in
        let Hcalls := fresh "Hcalls" in
        pose proof (setCache_frame k d t w0) as Hframe;
        pose proof (setCache_returns k d t w0) as Hret;
        pose proof (setCache_routerCalls k d t w0) as Hcalls;
        destruct (setCache k d t w0) as [?ws [[]|]]; cbn in Hframe, Hret, Hcalls;
        [destruct Hframe as (Hmetrics & Hconfig & Hqueue & Hrt & Hclock)
        |discriminate Hret]; cbn
    end ].

Section ReadPathMore.

Variables chain tin tout amt tt : string.
Variable w : world.

(** X9: a request whose entry is still fresh (its age does not exceed its
    tier's ttl) is answered from the store alone: the cached quote is
    returned unchanged, one hit is counted, and neither the router, the
    queue nor the store's contents are touched. *)
Theorem getPrice_fresh_hit (c : cacheEntry) (tc : tierConfig) :
  readResult (generateCacheKey chain tin tout amt tt) (redis w)
    (length (calls (redis w))) = Some c →
  tierByName (tierOrDefault (tier c)) (tiers (this_config w)) = Some tc →
  clock w (S (clockReads w)) - timestamp c ≤ ttl tc →
  let w' := (getPrice chain tin tout amt tt w).1 in
  (getPrice chain tin tout amt tt w).2 = Return (data c)
  ∧ cacheHits (this_metrics w') = (cacheHits (this_metrics w) + 1)%N
  ∧ cacheMisses (this_metrics w') = cacheMisses (this_metrics w)
  ∧ errors (this_metrics w') = errors (this_metrics w)
  ∧ routerCalls w' = routerCalls w
  ∧ priceQueue w' = priceQueue w
  ∧ store (redis w') = store (redis w)
  ∧ calls (redis w')
    = calls (redis w) ++ [RGet (generateCacheKey chain tin tout amt tt)].
Proof.
  intros Hread Htier Hfresh w'. subst w'.
  unfold getPrice. run_monad. cbn.
  rewrite getFromCache_run. cbn. rewrite Hread.
  rewrite (isExpired_run c _ tc) by done. cbn.
  destruct (Z.ltb_spec (ttl tc) (clock w (S (clockReads w)) - timestamp c))
    as [?|_]; [lia|].
  cbn. unfold Date_now. run_monad. cbn.
  repeat split; reflexivity.
Qed.

(** The outcome of the fresh branch alone. *)
Lemma getPrice_fresh_outcome (c : cacheEntry) (tc : tierConfig) :
  readResult (generateCacheKey chain tin tout amt tt) (redis w)
    (length (calls (redis w))) = Some c →
  tierByName (tierOrDefault (tier c)) (tiers (this_config w)) = Some tc →
  clock w (S (clockReads w)) - timestamp c ≤ ttl tc →
  (getPrice chain tin tout amt tt w).2 = Return (data c)
  ∧ routerCalls (getPrice chain tin tout amt tt w).1 = routerCalls w.
Proof.
  intros Hread Htier Hfresh.
  unfold getPrice. run_monad. cbn.
  rewrite getFromCache_run. cbn. rewrite Hread.
  rewrite (isExpired_run c _ tc) by done. cbn.
  destruct (Z.ltb_spec (ttl tc) (clock w (S (clockReads w)) - timestamp c))
    as [?|_]; [lia|].
  cbn. unfold Date_now. run_monad. cbn. done.
Qed.

(** X10: [getPrice] changes the contents of the store only when its
    synchronous fetch succeeded; on a fresh hit, a stale hit, a failed
    fetch and a throwing freshness check the store is left as it was. *)
Theorem getPrice_writes_only_after_fetch :
  store (redis (getPrice chain tin tout amt tt w).1) ≠ store (redis w) →
  branchOf (generateCacheKey chain tin tout amt tt) w = FetchNow
  ∧ ∃ r, router w (length (routerCalls w))
           {| chainName := chain; tokenInSymbol := tin; tokenOutSymbol := tout;
              amount := amt; tradeType := tt |} = inr r.
Proof.
  read_paths w.
  - unfold queuePriceUpdate, queue_add, Date_now. run_monad. cbn.
    intros H. by destruct H.
  - fetch_cases w.
    + destruct (readResult _ (logCall _ (redis w)) _); cbn;
        intros H; by destruct H.
    + intros _. eauto.
  - unfold Date_now. run_monad. cbn. intros H. by destruct H.
  - destruct (readResult _ (logCall _ (redis w)) _); cbn;
      intros H; by destruct H.
  - fetch_cases w.
    + destruct (readResult _ (logCall _ (redis w)) _); cbn;
        intros H; by destruct H.
    + intros _. eauto.
Qed.

(** X11: how one request moves the counters: a fresh or stale hit counts
    one hit; a synchronous fetch counts one miss, and one error as well
    when the router fails; a throwing freshness check counts one error and
    neither a hit nor a miss.  No counter ever decreases. *)
Theorem getPrice_counters :
  let m := this_metrics w in
  let m' := this_metrics (getPrice chain tin tout amt tt w).1 in
  match branchOf (generateCacheKey chain tin tout amt tt) w with
  | ServeFresh _ | ServeStale _ =>
      cacheHits m' = (cacheHits m + 1)%N ∧ cacheMisses m' = cacheMisses m
      ∧ errors m' = errors m
  | CheckThrows =>
      cacheHits m' = cacheHits m ∧ cacheMisses m' = cacheMisses m
      ∧ errors m' = (errors m + 1)%N
  | FetchNow =>
      cacheHits m' = cacheHits m ∧ cacheMisses m' = (cacheMisses m + 1)%N
      ∧ errors m'
        = match router w (length (routerCalls w))
                  {| chainName := chain; tokenInSymbol := tin;
                     tokenOutSymbol := tout; amount := amt; tradeType := tt |}
          with
          | inl _ => (errors m + 1)%N
          | inr _ => errors m
          end
  end.
Proof.
  cbv zeta. read_paths w.
  - unfold queuePriceUpdate, queue_add, Date_now. run_monad. cbn. done.
  - fetch_cases w.
    + destruct (readResult _ (logCall _ (redis w)) _); cbn; done.
    + by rewrite Hmetrics.
  - unfold Date_now. run_monad. cbn. done.
  - destruct (readResult _ (logCall _ (redis w)) _); cbn; done.
  - fetch_cases w.
    + destruct (readResult _ (logCall _ (redis w)) _); cbn; done.
    + by rewrite Hmetrics.
Qed.

End ReadPathMore.

(** ** The window of response times *)

Lemma tail_snoc {A} (l : list A) (x : A) : l ≠ [] → tail (l ++ [x]) = tail l ++ [x].
Proof. by destruct l. Qed.

(** X2: [recordResponseTime] keeps at most the last 1000 measurements: on
    a window of at most 1000 entries the new time is appended, and when
    the window was full the oldest entry is dropped, so the window never
    grows beyond 1000. *)
Theorem recordResponseTime_window (time : Z) (w : world) :
  (length (responseTime (this_metrics w)) ≤ 1000)%nat →
  let l := responseTime (this_metrics w) in
  let l' := responseTime (this_metrics (recordResponseTime time w).1) in
  (length l' ≤ 1000)%nat
  ∧ last l' = Some time
  ∧ ((length l < 1000)%nat → l' = l ++ [time])
  ∧ (length l = 1000%nat → l' = tail l ++ [time]).
Proof.
  intros Hlen l l'. subst l'. unfold recordResponseTime. run_monad. cbn.
  fold l. fold l in Hlen.
  destruct (Nat.ltb_spec 1000 (length (l ++ [time]))) as [Hfull|Hroom];
    rewrite length_snoc in *.
  - assert (length l = 1000%nat) as Hl by lia.
    assert (l ≠ []) as Hne by (intros ->; simpl in Hl; lia).
    rewrite (tail_snoc l time Hne).
    assert (length (tail l) = 999%nat) as Ht
      by (destruct l; simpl in *; [done|lia]).
    split; [|split; [|split]].
    + rewrite length_snoc, Ht. lia.
    + by rewrite last_snoc.
    + lia.
    + done.
  - split; [|split; [|split]].
    + lia.
    + by rewrite last_snoc.
    + done.
    + intros. lia.
Qed.

Lemma recordResponseTime_window_witness :
  last (responseTime
          (this_metrics
             (recordResponseTime 42 (freshWorld ∅ tickingClock failingRouter)).1))
  = Some 42.
Proof.
  apply (recordResponseTime_window 42 (freshWorld ∅ tickingClock failingRouter)).
  simpl. lia.
Defined.

(** ** Token tables *)

Lemma upperChar_idem (c : ascii) : upperChar (upperChar c) = upperChar c.
Proof. by destruct c as [[] [] [] [] [] [] [] []]. Qed.

Lemma toUpperCase_idem (s : string) : toUpperCase (toUpperCase s) = toUpperCase s.
Proof. induction s as [|c s IH]; simpl; [done|]. by rewrite upperChar_idem, IH. Qed.

Lemma upperChar_sameLetter (c d : ascii) :
  Str.sameLetter c d = true → upperChar c = upperChar d.
Proof.
  destruct c as [[] [] [] [] [] [] [] []];
    destruct d as [[] [] [] [] [] [] [] []]; vm_compute; congruence.
Qed.

Lemma toUpperCase_eqUpToCase (s t : string) :
  Str.eqUpToCase s t = true → toUpperCase s = toUpperCase t.
Proof.
  revert t. induction s as [|c s IH]; intros [|d t]; simpl; try done.
  intros [Hc Hs]%andb_true_iff.
  by rewrite (upperChar_sameLetter c d Hc), (IH t Hs).
Qed.

Lemma matchingChain_lower (n1 n2 : string) (cfgs : list (N * chainConfig)) :
  Str.toLowerCase n1 = Str.toLowerCase n2 →
  matchingChain n1 cfgs = matchingChain n2 cfgs.
Proof.
  intros Hn. induction cfgs as [|[id cfg] cfgs IH]; simpl; [done|].
  by rewrite Hn, IH.
Qed.

Lemma matchingChain_None (n : string) (cfgs : list (N * chainConfig)) :
  matchingChain n cfgs = None
  ↔ ∀ id cfg, (id, cfg) ∈ cfgs → Str.toLowerCase (name cfg) ≠ Str.toLowerCase n.
Proof.
  induction cfgs as [|[id cfg] cfgs IH]; simpl.
  - split; [|done]. intros _ id cfg Hin. by apply elem_of_nil in Hin.
  - destruct (String.eqb_spec (Str.toLowerCase (name cfg)) (Str.toLowerCase n))
      as [Heq|Hne].
    + split; [done|]. intros H. exfalso.
      apply (H id cfg); [apply elem_of_cons; by left|done].
    + rewrite IH. split.
      * intros H id' cfg' Hin. apply elem_of_cons in Hin as [Heq|Hin].
        -- injection Heq as Hid Hcfg. by subst.
        -- by apply (H id').
      * intros H id' cfg' Hin. apply (H id'). apply elem_of_cons. by right.
Qed.

(** X5: [findTokensByChainName] matches the chain name without regard to
    letter case: every spelling of a name that is found gives the same
    chain id, stored name and token table; and a name that matches no
    configured chain in any letter case is refused with an error. *)
Theorem findTokensByChainName_case_insensitive
    (cfgs : list (N * chainConfig)) (n1 n2 : string) (ct : chainTokens) :
  Str.eqUpToCase n1 n2 = true →
  (findTokensByChainName cfgs n1 = Return ct →
   findTokensByChainName cfgs n2 = Return ct)
  ∧ ((∀ id cfg, (id, cfg) ∈ cfgs →
        Str.toLowerCase (name cfg) ≠ Str.toLowerCase n1) →
     ∃ msg, findTokensByChainName cfgs n2 = Throw (Error msg)).
Proof.
  intros Hcase%toLowerCase_eqUpToCase. unfold findTokensByChainName.
  rewrite (matchingChain_lower n1 n2 cfgs Hcase). split.
  - destruct (matchingChain n2 cfgs) as [id|]; [|done].
    destruct (id =? 0)%N; [done|].
    by destruct (entryOf N.eqb id cfgs).
  - intros Hnone%matchingChain_None.
    rewrite (matchingChain_lower n1 n2 cfgs Hcase) in Hnone.
    rewrite Hnone. eauto.
Qed.

Lemma findTokensByChainName_case_insensitive_witness :
  ct_chainId <$> (match findTokensByChainName sampleChains "ETHEREUM" with
                  | Return ct => Some ct
                  | Throw _ => None
                  end) = Some 1%N.
Proof.
  destruct (findTokensByChainName_case_insensitive sampleChains "ethereum"
              "ETHEREUM"
              {| ct_chainId := 1; ct_chainName := "Ethereum";
                 ct_tokens := default [] (entryOf N.eqb 1%N TOKEN_ADDRESSES) |})
    as [Hfound _].
  - reflexivity.
  - by rewrite Hfound.
Defined.

Lemma entryOf_elem {V} (key : string) (l : list (string * V)) (v : V) :
  entryOf String.eqb key l = Some v → (key, v) ∈ l.
Proof.
  induction l as [|[k x] l IH]; simpl; [done|].
  destruct (String.eqb_spec k key) as [->|Hne].
  - intros [= ->]. apply elem_of_cons. by left.
  - intros H. apply elem_of_cons. right. by apply IH.
Qed.

Lemma entryOf_table (id : N) (toks : list (string * string)) :
  entryOf N.eqb id TOKEN_ADDRESSES = Some toks → (id, toks) ∈ TOKEN_ADDRESSES.
Proof.
  generalize TOKEN_ADDRESSES. intros l.
  induction l as [|[k x] l IH]; simpl; [done|].
  destruct (N.eqb_spec k id) as [->|Hne].
  - intros [= ->]. apply elem_of_cons. by left.
  - intros H. apply elem_of_cons. right. by apply IH.
Qed.

(** What [getTokenAddress] returns is stored in the table under the
    upper-cased symbol. *)
Lemma getTokenAddress_stored (cfgs : list (N * chainConfig))
    (chain symbol address : string) :
  getTokenAddress cfgs chain symbol = Return (Some address) →
  ∃ cid toks, (cid, toks) ∈ TOKEN_ADDRESSES ∧ (toUpperCase symbol, address) ∈ toks.
Proof.
  unfold getTokenAddress, findTokensByChainName.
  destruct (matchingChain chain cfgs) as [cid|]; [|done].
  destruct (cid =? 0)%N; [done|].
  destruct (entryOf N.eqb cid cfgs); [|done]. cbn [ct_tokens].
  destruct (entryOf N.eqb cid TOKEN_ADDRESSES) as [toks|] eqn:Htab;
    cbn [from_option id entryOf]; [|done].
  destruct (entryOf String.eqb (toUpperCase symbol) toks) as [a|] eqn:Hsym;
    [|done].
  destruct (String.eqb a ""); [done|]. intros [= ->].
  exists cid, toks. split; [by apply entryOf_table|by apply entryOf_elem].
Qed.

(** X6: [getTokenAddress] looks the symbol up in upper case, so symbols
    that differ only in letter case get the same answer; and since the
    table of Base lists [USDbC] under a key that is not upper case, the
    address of that token is returned for no chain table, chain name and
    symbol. *)
Theorem getTokenAddress_upper_case_only
    (cfgs : list (N * chainConfig)) (chain s1 s2 : string) :
  (Str.eqUpToCase s1 s2 = true →
   getTokenAddress cfgs chain s1 = getTokenAddress cfgs chain s2)
  ∧ getTokenAddress cfgs chain s1
    ≠ Return (Some "0xd9aAEc86B65D86f6A7B5B1b0c42FFA531710b6CA").
Proof.
  split.
  - intros Hcase%toUpperCase_eqUpToCase. unfold getTokenAddress.
    by rewrite Hcase.
  - intros (id & toks & Htab & Hsym)%getTokenAddress_stored.
    assert (toUpperCase s1 = "USDbC") as Hkey.
    { unfold TOKEN_ADDRESSES in Htab.
      repeat (apply elem_of_cons in Htab as [Heq|Htab];
              [injection Heq as Hid Htoks; subst toks;
               repeat (apply elem_of_cons in Hsym as [Hentry|Hsym];
                       [apply pair_equal_spec in Hentry as [Hk Ha];
                        first [discriminate Ha | exact Hk]|]);
               by apply elem_of_nil in Hsym|]).
      by apply elem_of_nil in Htab. }
    pose proof (toUpperCase_idem s1) as Hidem.
    rewrite Hkey in Hidem. vm_compute in Hidem. discriminate Hidem.
Qed.

Lemma getTokenAddress_upper_case_only_witness :
  getTokenAddress sampleChains "base" "usdc"
  = getTokenAddress sampleChains "base" "USDC".
Proof.
  apply (getTokenAddress_upper_case_only sampleChains "base" "usdc" "USDC").
  reflexivity.
Defined.

(** ** Block search *)

Lemma mid_between (e l : Z) : e < l → e ≤ (e + l) / 2 < l.
Proof.
  intros H. split; [apply Z.div_le_lower_bound|apply Z.div_lt_upper_bound]; lia.
Qed.

(** The first loop ends at a block that is older than the target, or at
    block 0, and never moves forward. *)
Lemma moveBack_spec (p : provider) (target e : Z) :
  0 ≤ e →
  0 ≤ moveBack p target e ≤ e
  ∧ (blockTimestamp p (moveBack p target e) < target ∨ moveBack p target e = 0).
Proof.
  funelim (moveBack p target e); intros He.
  - split; [lia|by left].
  - rewrite e. split; [lia|by right].
  - destruct (H ltac:(lia)) as [Hb Hs]. split; [lia|done].
Qed.

Lemma bisect_bounds (p : provider) (target e l : Z) :
  e ≤ l → e ≤ bisect p target e l ≤ l.
Proof.
  funelim (bisect p target e l); intros Hel; [|lia].
  pose proof (mid_between earliest latest l) as Hmid.
  destruct (blockTimestamp p ((earliest + latest) / 2) <? targetTimestamp).
  - specialize (H ltac:(lia)). lia.
  - specialize (H0 ltac:(lia)). lia.
Qed.

(** The invariant of the binary search on a chain whose timestamps do not
    decrease. *)
Lemma bisect_spec (p : provider) (target e l : Z) :
  (∀ a b, 0 ≤ a → a ≤ b → b ≤ latestNumber p →
          blockTimestamp p a ≤ blockTimestamp p b) →
  0 ≤ e → e ≤ l → l ≤ latestNumber p →
  (∀ b, 0 ≤ b < e → blockTimestamp p b < target) →
  (l < latestNumber p → target ≤ blockTimestamp p l) →
  (∀ b, 0 ≤ b < bisect p target e l → blockTimestamp p b < target)
  ∧ (bisect p target e l < latestNumber p →
     target ≤ blockTimestamp p (bisect p target e l)).
Proof.
  funelim (bisect p target e l); intros Hmono He Hel Hl Hbelow Habove.
  - pose proof (mid_between earliest latest l) as Hmid.
    destruct (Z.ltb_spec (blockTimestamp p ((earliest + latest) / 2))
                targetTimestamp) as [Hlt|Hge].
    + apply H; try done; try lia.
      intros b Hb.
      pose proof (Hmono b ((earliest + latest) / 2)
                    ltac:(lia) ltac:(lia) ltac:(lia)).
      lia.
    + apply H0; try done; lia.
  - assert (earliest = latest) as -> by lia.
    split; [exact Hbelow|exact Habove].
Qed.

(** X3: [findBlockByTimestamp] returns a block number between 0 and the
    latest block, whatever timestamps the provider reports. *)
Theorem findBlockByTimestamp_in_range (p : provider) (target : Z) :
  0 ≤ latestNumber p →
  0 ≤ findBlockByTimestamp p target ≤ latestNumber p.
Proof.
  intros Hlatest. unfold findBlockByTimestamp.
  set (e0 := if latestNumber p - 5000 <? 0 then 0 else latestNumber p - 5000).
  assert (0 ≤ e0 ≤ latestNumber p) as He0
    by (subst e0; destruct (Z.ltb_spec (latestNumber p - 5000) 0); lia).
  destruct (moveBack_spec p target e0 ltac:(lia)) as [Hback _].
  pose proof (bisect_bounds p target (moveBack p target e0) (latestNumber p)
                ltac:(lia)).
  lia.
Qed.

Lemma findBlockByTimestamp_in_range_witness :
  0 ≤ findBlockByTimestamp
        {| latestNumber := 12000; blockTimestamp := λ b, 1000 + 2 * b |} 21000
    ≤ 12000.
Proof.
  apply (findBlockByTimestamp_in_range
           {| latestNumber := 12000; blockTimestamp := λ b, 1000 + 2 * b |} 21000).
  simpl. lia.
Defined.

(** X4: on a chain whose block timestamps never decrease, the block
    [findBlockByTimestamp] returns has only blocks older than the target
    before it, and — unless it is the latest block, whose timestamp is
    never read — it is itself at or after the target: it is the first
    block at or after the target among the blocks below the latest one,
    and the latest block when there is none. *)
Theorem findBlockByTimestamp_first_at_or_after (p : provider) (target : Z) :
  0 ≤ latestNumber p →
  (∀ a b, 0 ≤ a → a ≤ b → b ≤ latestNumber p →
          blockTimestamp p a ≤ blockTimestamp p b) →
  let r := findBlockByTimestamp p target in
  (∀ b, 0 ≤ b < r → blockTimestamp p b < target)
  ∧ (r < latestNumber p → target ≤ blockTimestamp p r).
Proof.
  intros Hlatest Hmono r. subst r. unfold findBlockByTimestamp.
  set (e0 := if latestNumber p - 5000 <? 0 then 0 else latestNumber p - 5000).
  assert (0 ≤ e0 ≤ latestNumber p) as He0
    by (subst e0; destruct (Z.ltb_spec (latestNumber p - 5000) 0); lia).
  destruct (moveBack_spec p target e0 ltac:(lia)) as [Hback Hstop].
  apply bisect_spec; try done; try lia.
  intros b Hb. destruct Hstop as [Hold|Hzero]; [|lia].
  pose proof (Hmono b (moveBack p target e0) ltac:(lia) ltac:(lia) ltac:(lia)).
  lia.
Qed.

Lemma findBlockByTimestamp_first_at_or_after_witness :
  let p := {| latestNumber := 12000; blockTimestamp := λ b, 1000 + 2 * b |} in
  findBlockByTimestamp p 21000 < latestNumber p →
  21000 ≤ blockTimestamp p (findBlockByTimestamp p 21000).
Proof.
  intros p.
  apply (findBlockByTimestamp_first_at_or_after p 21000).
  - simpl. lia.
  - simpl. intros. lia.
Defined.
